(** * StateCacheStorage: persisting the processor state in the Actions cache

    A shallow embedding of [src/classes/state/state-cache-storage.ts].

    The TypeScript module is a sequential wrapper around three external
    collaborators: the local filesystem ([fs]), the REST client of the
    Actions cache ([getActionsCacheList], [deleteActionsCacheByKey]) and
    the cache toolkit ([cache.saveCache], [cache.restoreCache]).  Every
    [await] is a plain sequencing point, and a rejected promise is a thrown
    exception, so the code is modelled in a state-and-exception monad over
    a [world] that holds the disk, the remote cache, the log and the trace
    of backend calls. *)

From Stdlib Require Import ZArith String Ascii List Lia DecimalString.
From stdpp Require Import gmap strings list fin_maps.

(** ** JavaScript values that the module inspects *)

(** A thrown value.  The module reads two properties of it: [error.status]
    (a number or [undefined]) and [error.message] (a string or
    [undefined]). *)
Record js_error := JsError {
  status : option Z;
  message : option string
}.

(** [if (error.status)]: [undefined] and [0] are falsy. *)
Definition truthy_status (e : js_error) : bool :=
  match status e with
  | Some n => negb (n =? 0)%Z
  | None => false
  end.

(** [error.message || d]: [undefined] and the empty string are falsy. *)
Definition message_or (e : js_error) (d : string) : string :=
  match message e with
  | Some EmptyString => d
  | Some s => s
  | None => d
  end.

(** [`${error.message}`] inside a template literal. *)
Definition message_text (e : js_error) : string :=
  match message e with
  | Some s => s
  | None => "undefined"
  end.

(** [`${error.status}`] for a number. *)
Definition number_text (n : Z) : string :=
  NilZero.string_of_int (Z.to_int n).

(** The double-quote character that occurs in the log templates. *)
Definition dq : string := String (ascii_of_nat 34) EmptyString.

(** ** The world *)

Inductive level := Debug | Info | Warning.

(** One entry of the remote cache: its key and the archived files, as a
    map from path to content. *)
Record cache_entry := CacheEntry {
  entry_key : string;
  entry_files : gmap string string
}.

(** An element of [cachesResult.data.actions_caches]; the source types it
    as [{key?: string}]. *)
Record actions_cache := ActionsCache { ac_key : option string }.

(** Calls made to the backend, kept as a trace (latest first). *)
Inductive api_call :=
| GetActionsCacheList (key : string)
| DeleteActionsCacheByKey (key : string)
| SaveCache (paths : list string) (key : string)
| RestoreCache (paths : list string) (key : string).

(** The disk maps the path of each file to its bytes; the archive of a
    cache entry does the same.  State blobs, keys, paths and log lines
    are JavaScript strings. *)
Record world := World {
  fs : gmap string string;
  remote : list cache_entry;
  log : list (level * string);
  calls : list api_call
}.

Definition set_fs (m : gmap string string) (w : world) : world :=
  World m (remote w) (log w) (calls w).
Definition set_remote (r : list cache_entry) (w : world) : world :=
  World (fs w) r (log w) (calls w).
Definition add_log (l : level) (s : string) (w : world) : world :=
  World (fs w) (remote w) ((l, s) :: log w) (calls w).
Definition add_call (c : api_call) (w : world) : world :=
  World (fs w) (remote w) (log w) (c :: calls w).

(** What the environment does to each external call of one [save] or
    [restore]: [None] lets the call proceed, [Some e] makes it throw [e]
    and leave the world as it was. *)
Record faults := Faults {
  mkdir_fault : option js_error;
  write_fault : option js_error;
  unlink_fault : option js_error;
  stat_fault : option js_error;
  read_fault : option js_error;
  client_fault : option js_error;
  list_fault : option js_error;
  delete_fault : option js_error;
  upload_fault : option js_error;
  download_fault : option js_error
}.

Definition no_faults : faults :=
  Faults None None None None None None None None None None.

(** ** The monad: state and exceptions *)

Inductive outcome (A : Type) :=
| Ok (a : A)
| Throw (e : js_error).
Arguments Ok {A} a.
Arguments Throw {A} e.

Definition M (A : Type) : Type := world -> outcome A * world.

Definition ret {A} (a : A) : M A := fun w => (Ok a, w).

Definition throw {A} (e : js_error) : M A := fun w => (Throw e, w).

Definition bind {A B} (m : M A) (k : A -> M B) : M B :=
  fun w =>
    match m w with
    | (Ok a, w1) => k a w1
    | (Throw e, w1) => (Throw e, w1)
    end.

(** [try { m } catch (error) { h error }] *)
Definition try_catch {A} (m : M A) (h : js_error -> M A) : M A :=
  fun w =>
    match m w with
    | (Ok a, w1) => (Ok a, w1)
    | (Throw e, w1) => h e w1
    end.

(** [try { m } finally { fin }]: [fin] runs on every exit of [m]; an
    exception of [fin] replaces the pending result. *)
Definition try_finally {A} (m : M A) (fin : M unit) : M A :=
  fun w =>
    match m w with
    | (r, w1) =>
        match fin w1 with
        | (Ok _, w2) => (r, w2)
        | (Throw e, w2) => (Throw e, w2)
        end
    end.

Declare Scope js_scope.
Delimit Scope js_scope with js.
Notation "x <- m ;; k" := (bind m (fun x => k))
  (at level 100, m at next level, right associativity) : js_scope.
Notation "m ;; k" := (bind m (fun _ => k))
  (at level 100, right associativity) : js_scope.
Local Open Scope js_scope.

(** Fail with [e] when the environment says so. *)
Definition guard (f : option js_error) : M unit :=
  match f with
  | Some e => throw e
  | None => ret tt
  end.

(** [s] starts with [p]. *)
Fixpoint starts_with (p s : string) : bool :=
  match p, s with
  | EmptyString, _ => true
  | String a p', String b s' => Ascii.eqb a b && starts_with p' s'
  | String _ _, EmptyString => false
  end.

(** ** Paths ([path], POSIX flavour) *)

Definition is_sep (c : ascii) : bool := Ascii.eqb c "/"%char.

(** The last character of a string, if any. *)
Fixpoint last_char (s : string) : option ascii :=
  match s with
  | EmptyString => None
  | String c EmptyString => Some c
  | String _ r => last_char r
  end.

Definition ends_with_sep (s : string) : bool :=
  match last_char s with
  | Some c => is_sep c
  | None => false
  end.

(** The segments of a path: the text between its separators. *)
Fixpoint split_sep (s : string) : list string :=
  match s with
  | EmptyString => [EmptyString]
  | String c r =>
      if is_sep c then EmptyString :: split_sep r
      else match split_sep r with
           | seg :: segs => String c seg :: segs
           | [] => [String c EmptyString]
           end
  end.

Fixpoint join_sep (segs : list string) : string :=
  match segs with
  | [] => EmptyString
  | [seg] => seg
  | seg :: rest => seg +:+ "/" +:+ join_sep rest
  end.

(** One turn of the loop of [normalizeString], at the end of a segment.
    [stack] holds the segments kept so far, the last one first. *)
Definition normalize_step (allowAboveRoot : bool) (stack : list string)
    (seg : string) : list string :=
  if String.eqb seg "" || String.eqb seg "." then stack
  else if String.eqb seg ".." then
    match stack with
    | top :: below =>
        if String.eqb top ".."
        then (if allowAboveRoot then seg :: stack else stack)
        else below
    | [] => if allowAboveRoot then [seg] else []
    end
  else seg :: stack.

Definition normalizeString (path : string) (allowAboveRoot : bool) : string :=
  join_sep (rev (fold_left (normalize_step allowAboveRoot) (split_sep path) [])).

(** [path.normalize(path)] *)
Definition posix_normalize (path : string) : string :=
  match path with
  | EmptyString => "."
  | _ =>
      let isAbsolute := starts_with "/" path in
      let trailingSeparator := ends_with_sep path in
      let body := normalizeString path (negb isAbsolute) in
      match body with
      | EmptyString =>
          if isAbsolute then "/" else if trailingSeparator then "./" else "."
      | _ =>
          (if isAbsolute then "/" else "") +:+ body
          +:+ (if trailingSeparator then "/" else "")
      end
  end.

(** [path.join(a, b)]: the non-empty arguments joined by a separator,
    then normalised. *)
Definition path_join (a b : string) : string :=
  match a, b with
  | EmptyString, EmptyString => "."
  | EmptyString, _ => posix_normalize b
  | _, EmptyString => posix_normalize a
  | _, _ => posix_normalize (a +:+ "/" +:+ b)
  end.

Fixpoint skip_while (f : ascii -> bool) (l : list ascii) : list ascii :=
  match l with
  | [] => []
  | c :: r => if f c then skip_while f r else l
  end.

(** [path.dirname(path)].  The source scans the characters after the
    first from the end: it passes the trailing separators, then the last
    segment, and cuts at the separator it meets next. *)
Definition dirname (path : string) : string :=
  match path with
  | EmptyString => "."
  | String c0 rest =>
      let hasRoot := is_sep c0 in
      match skip_while (fun c => negb (is_sep c))
              (skip_while is_sep (rev (list_ascii_of_string rest))) with
      | [] => if hasRoot then "/" else "."
      | _ :: before =>
          match before with
          | [] => if hasRoot then "//" else String c0 EmptyString
          | _ => String c0 (string_of_list_ascii (rev before))
          end
      end
  end.

(** A file is under directory [d] when its path extends [d] by a separator;
    every relative path is under [.]. *)
Definition under1 (d p : string) : bool :=
  if String.eqb d "." then negb (starts_with "/" p)
  else starts_with (if ends_with_sep d then d else d +:+ "/") p.

Definition under (paths : list string) (p : string) : bool :=
  existsb (fun d => under1 d p) paths.

(** A segment: text without a separator. *)
Fixpoint no_sep (s : string) : bool :=
  match s with
  | EmptyString => true
  | String c r => negb (is_sep c) && no_sep r
  end.

(** A segment that [normalizeString] keeps as it is. *)
Definition plain_segment (s : string) : bool :=
  no_sep s && negb (String.eqb s "") && negb (String.eqb s ".")
  && negb (String.eqb s "..").

(** [s] is [name] or ends in a separator followed by [name]. *)
Definition ends_in_segment (s name : string) : Prop :=
  s = name \/ exists y, s = y +:+ "/" +:+ name.

(** ** Text ([utf8])

    A JavaScript string is carried by the bytes of its generalised UTF-8
    form: a well-formed string by its UTF-8 encoding, and a lone surrogate
    [U+D800..U+DFFF], which UTF-8 cannot carry, by the three bytes
    [ED A0..BF 80..BF].  A file holds bytes.  Bytes that are no such form
    stand for no JavaScript string; what depends on the text of a blob is
    stated for [well_formed] blobs. *)

Definition byte_in (lo hi : N) (c : ascii) : bool :=
  (lo <=? N_of_ascii c)%N && (N_of_ascii c <=? hi)%N.

(** A continuation byte [80..BF]. *)
Definition is_cont (c : ascii) : bool := byte_in 128 191 c.

(** [U+FFFD], the replacement character, in UTF-8: [EF BF BD]. *)
Definition replacement : string :=
  String "239"%char (String "191"%char (String "189"%char EmptyString)).

(** The bytes [ED A0..BF 80..BF] of a lone surrogate. *)
Definition is_surrogate (b0 b1 b2 : ascii) : bool :=
  byte_in 237 237 b0 && byte_in 160 191 b1 && is_cont b2.

(** What [writeFileSync] stores for a string (encoding [utf8], the
    default): its UTF-8 bytes, with [U+FFFD] in place of each lone
    surrogate. *)
Fixpoint utf8_encode (s : string) : string :=
  match s with
  | EmptyString => EmptyString
  | String b0 r0 =>
      match r0 with
      | String b1 (String b2 r2) =>
          if is_surrogate b0 b1 b2 then replacement +:+ utf8_encode r2
          else String b0 (utf8_encode r0)
      | _ => String b0 (utf8_encode r0)
      end
  end.

(** The first character of a byte sequence, as the UTF-8 decoder reads
    it: [(Some bytes, rest)] for a well-formed sequence of one to four
    bytes, [(None, rest)] for an ill-formed one, where [rest] starts after
    the longest prefix of a well-formed sequence that was read, at least
    one byte. *)
Definition utf8_next (s : string) : option string * string :=
  match s with
  | EmptyString => (None, EmptyString)
  | String b0 r0 =>
      if byte_in 0 127 b0 then (Some (String b0 EmptyString), r0)
      else if byte_in 194 223 b0 then
        match r0 with
        | String b1 r1 =>
            if is_cont b1 then (Some (String b0 (String b1 EmptyString)), r1)
            else (None, r0)
        | EmptyString => (None, r0)
        end
      else if byte_in 224 239 b0 then
        let lo := if byte_in 224 224 b0 then 160%N else 128%N in
        let hi := if byte_in 237 237 b0 then 159%N else 191%N in
        match r0 with
        | String b1 r1 =>
            if byte_in lo hi b1 then
              match r1 with
              | String b2 r2 =>
                  if is_cont b2
                  then (Some (String b0 (String b1 (String b2 EmptyString))), r2)
                  else (None, r1)
              | EmptyString => (None, r1)
              end
            else (None, r0)
        | EmptyString => (None, r0)
        end
      else if byte_in 240 244 b0 then
        let lo := if byte_in 240 240 b0 then 144%N else 128%N in
        let hi := if byte_in 244 244 b0 then 143%N else 191%N in
        match r0 with
        | String b1 r1 =>
            if byte_in lo hi b1 then
              match r1 with
              | String b2 r2 =>
                  if is_cont b2 then
                    match r2 with
                    | String b3 r3 =>
                        if is_cont b3
                        then (Some (String b0 (String b1 (String b2
                                      (String b3 EmptyString)))), r3)
                        else (None, r2)
                    | EmptyString => (None, r2)
                    end
                  else (None, r1)
              | EmptyString => (None, r1)
              end
            else (None, r0)
        | EmptyString => (None, r0)
        end
      else (None, r0)
  end.

(** What [readFileSync] with [encoding: 'utf8'] returns for the bytes of
    a file: well-formed sequences as they are, [U+FFFD] for each ill-formed
    one.  [n] bounds the number of characters read. *)
Fixpoint utf8_decode_upto (n : nat) (s : string) : string :=
  match n, s with
  | S n', String _ _ =>
      let (seq, rest) := utf8_next s in
      match seq with
      | Some bytes => bytes
      | None => replacement
      end +:+ utf8_decode_upto n' rest
  | _, _ => EmptyString
  end.

Definition utf8_decode (s : string) : string :=
  utf8_decode_upto (String.length s) s.

(** The bytes are well-formed UTF-8: the text of a string that has no
    lone surrogate. *)
Fixpoint utf8_valid_upto (n : nat) (s : string) : bool :=
  match s with
  | EmptyString => true
  | String _ _ =>
      match n with
      | S n' =>
          match utf8_next s with
          | (Some _, rest) => utf8_valid_upto n' rest
          | (None, _) => false
          end
      | O => false
      end
  end.

Definition well_formed (s : string) : bool :=
  utf8_valid_upto (String.length s) s.

Definition lone_surrogate : string :=
  String "237"%char (String "160"%char (String "128"%char EmptyString)).

(** ** Constants of the module *)

Definition CACHE_KEY : string := "_state".
Definition STATE_FILE : string := "state.txt".
Definition STALE_DIR : string := "56acbeaa-1fef-4c79-8f84-7565e560fb03".

(** ** Logging ([@actions/core]) *)

Definition core_debug (s : string) : M unit := fun w => (Ok tt, add_log Debug s w).
Definition core_info (s : string) : M unit := fun w => (Ok tt, add_log Info s w).
Definition core_warning (s : string) : M unit := fun w => (Ok tt, add_log Warning s w).

(** Errors raised by the collaborators themselves. *)
Definition ENOENT : js_error := JsError None (Some "ENOENT: no such file or directory").
Definition not_found : js_error := JsError (Some 404%Z) (Some "Not Found").

Definition key_eqb (k : string) (e : cache_entry) : bool := String.eqb (entry_key e) k.

Section Collaborators.

(** [os.tmpdir()] and the behaviour of the environment during the call. *)
Variable tmp : string.
Variable flt : faults.

(** *** Filesystem ([fs]) *)

(** [fs.mkdirSync(dir, {recursive: true})]; directories are not tracked. *)
Definition mkdirSync (dir : string) : M unit := guard (mkdir_fault flt).

(** [fs.writeFileSync(p, data)] for a string: encoding [utf8]. *)
Definition writeFileSync (p data : string) : M unit :=
  guard (write_fault flt) ;;
  fun w => (Ok tt, set_fs (<[p := utf8_encode data]> (fs w)) w).

Definition unlinkSync (p : string) : M unit :=
  guard (unlink_fault flt) ;;
  fun w =>
    match fs w !! p with
    | Some _ => (Ok tt, set_fs (delete p (fs w)) w)
    | None => (Throw ENOENT, w)
    end.

(** [fs.statSync(p).size] *)
Definition statSync_size (p : string) : M nat :=
  guard (stat_fault flt) ;;
  fun w =>
    match fs w !! p with
    | Some data => (Ok (String.length data), w)
    | None => (Throw ENOENT, w)
    end.

(** [fs.existsSync(p)] never throws. *)
Definition existsSync (p : string) : M bool :=
  fun w => (Ok (bool_decide (is_Some (fs w !! p))), w).

(** [fs.readFileSync(p, {encoding: 'utf8'})] *)
Definition readFileSync (p : string) : M string :=
  guard (read_fault flt) ;;
  fun w =>
    match fs w !! p with
    | Some data => (Ok (utf8_decode data), w)
    | None => (Throw ENOENT, w)
    end.

(** *** The cache backend *)

(** Modelled from the spec: the REST listing of the remote cache
    ([listEntries], prefix semantics).  It answers with the entries whose
    key starts with the requested key. *)
Definition getActionsCacheList (k : string) : M (option (list actions_cache)) :=
  (fun w => (Ok tt, add_call (GetActionsCacheList k) w)) ;;
  guard (list_fault flt) ;;
  fun w =>
    (Ok (Some (map (fun e => ActionsCache (Some (entry_key e)))
                   (List.filter (fun e => starts_with k (entry_key e)) (remote w)))),
     w).

(** Modelled from the spec: [deleteEntry(key) -> void | NotFoundError].
    It removes every entry stored under exactly this key and fails with
    status 404 when there is none. *)
Definition deleteActionsCacheByKey (k : string) : M unit :=
  (fun w => (Ok tt, add_call (DeleteActionsCacheByKey k) w)) ;;
  guard (delete_fault flt) ;;
  fun w =>
    if existsb (key_eqb k) (remote w)
    then (Ok tt, set_remote (List.filter (fun e => negb (key_eqb k e)) (remote w)) w)
    else (Throw not_found, w).

(** Modelled from the spec: [uploadPaths(paths, key)].  It stores the
    files under the given directories as a new entry; the backend itself
    does not refuse a key that is already present. *)
Definition saveCache (paths : list string) (k : string) : M unit :=
  (fun w => (Ok tt, add_call (SaveCache paths k) w)) ;;
  guard (upload_fault flt) ;;
  fun w =>
    (Ok tt,
     set_remote
       (CacheEntry k (filter (fun kv : string * string => under paths kv.1 = true) (fs w))
          :: remote w) w).

(** Modelled from the spec: [downloadPaths(paths, key)].  It unpacks the
    latest entry stored under the key over the disk and answers with the
    key; when there is no such entry it answers [undefined] and writes
    nothing. *)
Definition restoreCache (paths : list string) (k : string) : M (option string) :=
  (fun w => (Ok tt, add_call (RestoreCache paths k) w)) ;;
  guard (download_fault flt) ;;
  fun w =>
    match List.find (key_eqb k) (remote w) with
    | Some e => (Ok (Some k), set_fs (entry_files e ∪ fs w) w)
    | None => (Ok None, w)
    end.

(** ** The module *)

Definition mkTempDir : M string :=
  let tmpDir := path_join tmp STALE_DIR in
  mkdirSync tmpDir ;;
  ret tmpDir.

Definition unlinkSafely (filePath : string) : M unit :=
  try_catch (unlinkSync filePath) (fun foo => ret tt).

(** [core.getInput('repo-token')] followed by [getOctokit], which
    refuses a missing token. *)
Definition getOctokitClient : M unit := guard (client_fault flt).

(** [caches.some(cache => cache['key'] === cacheKey)] *)
Definition some_key (caches : list actions_cache) (cacheKey : string) : bool :=
  existsb (fun c => match ac_key c with
                    | Some k => String.eqb k cacheKey
                    | None => false
                    end) caches.

Definition checkIfCacheExists (cacheKey : string) : M bool :=
  getOctokitClient ;;
  r <- try_catch
         (cachesResult <- getActionsCacheList cacheKey ;;
          let caches := default [] cachesResult in
          ret (Some (some_key caches cacheKey)))
         (fun error =>
            core_debug ("Error checking if cache exist: " +:+ message_text error) ;;
            ret None) ;;
  match r with
  | Some b => ret b
  | None => ret false
  end.

Definition resetCacheWithOctokit (cacheKey : string) : M unit :=
  getOctokitClient ;;
  core_debug ("remove cache " +:+ dq +:+ cacheKey +:+ dq) ;;
  try_catch
    (deleteActionsCacheByKey cacheKey)
    (fun error =>
       if truthy_status error
       then core_warning ("Error delete " +:+ cacheKey +:+ ": ["
                          +:+ number_text (default 0%Z (status error)) +:+ "] "
                          +:+ message_or error "Unknown reason")
       else throw error).

Record IIssuesProcessorOptions := { cachePrefix : string }.

Record StateCacheStorage := { statePrefix : string }.

Definition constructor (options : IIssuesProcessorOptions) : StateCacheStorage :=
  {| statePrefix := cachePrefix options |}.

Definition state_file_of (this : StateCacheStorage) : string :=
  statePrefix this +:+ "_" +:+ STATE_FILE.

Definition cache_key_of (this : StateCacheStorage) : string :=
  statePrefix this +:+ CACHE_KEY.

Definition save (this : StateCacheStorage) (serializedState : string) : M unit :=
  tmpDir <- mkTempDir ;;
  let state_file := state_file_of this in
  let filePath := path_join tmpDir state_file in
  writeFileSync filePath serializedState ;;
  try_finally
    (try_catch
       (let cache_key := cache_key_of this in
        cacheExists <- checkIfCacheExists cache_key ;;
        (if cacheExists : bool then resetCacheWithOctokit cache_key else ret tt) ;;
        fileSize <- statSync_size filePath ;;
        if (fileSize =? 0)%nat
        then core_info "the state will be removed"
        else saveCache [dirname filePath] cache_key)
       (fun error =>
          core_warning ("Saving the state was not successful due to " +:+ dq
                        +:+ message_or error "unknown reason" +:+ dq)))
    (unlinkSafely filePath).

Definition restore (this : StateCacheStorage) : M string :=
  tmpDir <- mkTempDir ;;
  let state_file := state_file_of this in
  let filePath := path_join tmpDir state_file in
  unlinkSafely filePath ;;
  try_catch
    (let cache_key := cache_key_of this in
     cacheExists <- checkIfCacheExists cache_key ;;
     if negb cacheExists
     then
       core_info "The saved state was not found, the process starts from the first issue." ;;
       ret ""
     else
       restoreCache [dirname filePath] cache_key ;;
       present <- existsSync filePath ;;
       if negb present
       then
         core_warning
           "Unknown error when unpacking the cache, the process starts from the first issue." ;;
         ret ""
       else readFileSync (path_join tmpDir state_file))
    (fun error =>
       core_warning ("Restoring the state was not successful due to " +:+ dq
                     +:+ message_or error "unknown reason" +:+ dq) ;;
       ret "").

End Collaborators.

Arguments statePrefix : clear implicits.

(** The operations are unfolded by name in the proofs, one step at a time. *)
Arguments path_join : simpl never.
Arguments posix_normalize : simpl never.
Arguments dirname : simpl never.
Arguments under : simpl never.
Arguments utf8_encode : simpl never.
Arguments utf8_decode : simpl never.
Arguments utf8_next : simpl never.
Arguments mkdirSync : simpl never.
Arguments writeFileSync : simpl never.
Arguments unlinkSync : simpl never.
Arguments statSync_size : simpl never.
Arguments existsSync : simpl never.
Arguments readFileSync : simpl never.
Arguments getActionsCacheList : simpl never.
Arguments deleteActionsCacheByKey : simpl never.
Arguments saveCache : simpl never.
Arguments restoreCache : simpl never.
Arguments mkTempDir : simpl never.
Arguments unlinkSafely : simpl never.
Arguments getOctokitClient : simpl never.
Arguments checkIfCacheExists : simpl never.
Arguments resetCacheWithOctokit : simpl never.
Arguments save : simpl never.
Arguments restore : simpl never.

(** The scratch file of a store and the directory that holds it. *)
Definition scratch_dir (tmp : string) : string := path_join tmp STALE_DIR.
Definition scratch_path (tmp : string) (this : StateCacheStorage) : string :=
  path_join (scratch_dir tmp) (state_file_of this).

(** Number of remote entries stored under a key. *)
Definition count_key (k : string) (r : list cache_entry) : nat :=
  length (List.filter (key_eqb k) r).

(** A run of consecutive saves of one store, each with a working
    environment; the world is threaded through. *)
Fixpoint save_all (tmp : string) (this : StateCacheStorage)
    (blobs : list string) (w : world) : world :=
  match blobs with
  | [] => w
  | X :: rest => save_all tmp this rest (snd (save tmp no_faults this X w))
  end.

(** The uploads recorded in the trace of backend calls. *)
Definition is_upload (c : api_call) : bool :=
  match c with
  | SaveCache _ _ => true
  | _ => false
  end.
Definition uploads (w : world) : list api_call := List.filter is_upload (calls w).

(** ** Sample stores, worlds and environments *)

Definition foo : StateCacheStorage := {| statePrefix := "foo" |}.

Definition foo_scratch : string :=
  "/tmp/56acbeaa-1fef-4c79-8f84-7565e560fb03/foo_state.txt".

(** A fresh runner: empty disk, empty cache. *)
Definition fresh_world : world := World ∅ [] [] [].

(** The cache holds the state "42" of store [foo]. *)
Definition stored_world : world :=
  World ∅ [CacheEntry "foo_state" {[ foo_scratch := "42" ]}] [] [].

(** The cache holds an entry under the key of [foo] whose archive lacks
    the scratch file. *)
Definition hollow_world : world :=
  World ∅ [CacheEntry "foo_state" ∅] [] [].

(** The cache holds only an entry whose key extends the key of [foo]. *)
Definition longer_key_world : world :=
  World ∅ [CacheEntry "foo_state_v2" {[ foo_scratch := "7" ]}] [] [].

Definition EACCES : js_error := JsError None (Some "EACCES: permission denied").
Definition socket_hang_up : js_error := JsError None (Some "socket hang up").
Definition forbidden : js_error := JsError (Some 403%Z) (Some "Forbidden").

Definition mkdir_fails (e : js_error) : faults :=
  Faults (Some e) None None None None None None None None None.
Definition list_fails (e : js_error) : faults :=
  Faults None None None None None None (Some e) None None None.
Definition delete_fails (e : js_error) : faults :=
  Faults None None None None None None None (Some e) None None.

(** The string [a\uD800b]: a lone surrogate between two letters. *)
Definition torn_text : string := "a" +:+ lone_surrogate +:+ "b".

Definition bar : StateCacheStorage := {| statePrefix := "bar" |}.

Definition client_fails (e : js_error) : faults :=
  Faults None None None None None (Some e) None None None None.
Definition upload_fails (e : js_error) : faults :=
  Faults None None None None None None None None (Some e) None.
Definition unlink_fails (e : js_error) : faults :=
  Faults None None (Some e) None None None None None None None.
Definition write_fails (e : js_error) : faults :=
  Faults None (Some e) None None None None None None None None.

Definition missing_token : js_error :=
  JsError None (Some "Parameter token or opts.auth is required").
Definition status_zero : js_error := JsError (Some 0%Z) (Some "offline").

(** A disk with a stale scratch file of [foo] and an unrelated file. *)
Definition stale_world : world :=
  World {[ foo_scratch := "stale"; "/home/runner/notes.txt" := "keep" ]}
        [CacheEntry "foo_state" {[ foo_scratch := "42" ]};
         CacheEntry "bar_state" ∅] [] [].

(** ** Strings and paths *)

Lemma append_nil (b : string) : "" +:+ b = b.
Proof. reflexivity. Qed.

Lemma append_cons (c : ascii) (a b : string) : String c a +:+ b = String c (a +:+ b).
Proof. reflexivity. Qed.

Lemma starts_with_append (a b : string) : starts_with a (a +:+ b) = true.
Proof.
  induction a as [|c a IH]; [reflexivity|].
  rewrite append_cons. simpl. now rewrite Ascii.eqb_refl.
Qed.

Lemma append_assoc (a b c : string) : (a +:+ b) +:+ c = a +:+ (b +:+ c).
Proof.
  induction a as [|x a IH]; [reflexivity|].
  rewrite !append_cons. now rewrite IH.
Qed.

Lemma append_empty_r (a : string) : a +:+ "" = a.
Proof.
  induction a as [|x a IH]; [reflexivity|]. rewrite append_cons. now rewrite IH.
Qed.

Lemma last_char_append (a b : string) :
  b <> "" -> last_char (a +:+ b) = last_char b.
Proof.
  intros Hb. induction a as [|c a IH]; [reflexivity|].
  rewrite append_cons. cbn [last_char].
  destruct (a +:+ b) eqn:Hab; [|exact IH].
  destruct a; [now rewrite append_nil in Hab | discriminate Hab].
Qed.

Lemma last_char_no_sep (s : string) c :
  no_sep s = true -> last_char s = Some c -> is_sep c = false.
Proof.
  induction s as [|x s IH]; [discriminate|].
  cbn [no_sep last_char]. intros [Hx Hs]%andb_prop.
  destruct s; [intros [= <-]; now apply negb_true_iff | now apply IH].
Qed.

(** *** Segments *)

Lemma split_sep_cons (s : string) : exists seg segs, split_sep s = seg :: segs.
Proof.
  induction s as [|c s (seg & segs & IH)]; cbn [split_sep]; [eauto|].
  destruct (is_sep c); [eauto|]. rewrite IH. eauto.
Qed.

Lemma split_no_sep (s : string) : no_sep s = true -> split_sep s = [s].
Proof.
  induction s as [|c s IH]; [reflexivity|].
  cbn [no_sep split_sep]. intros [Hc Hs]%andb_prop.
  apply negb_true_iff in Hc. rewrite Hc, IH by exact Hs. reflexivity.
Qed.

Lemma split_join (y z : string) :
  split_sep (y +:+ "/" +:+ z) = split_sep y ++ split_sep z.
Proof.
  induction y as [|c y IH]; [reflexivity|].
  rewrite append_cons. cbn [split_sep].
  destruct (is_sep c); [now rewrite IH|].
  rewrite IH. destruct (split_sep_cons y) as (seg & segs & ->). reflexivity.
Qed.

Lemma join_sep_snoc (l : list string) (x : string) :
  join_sep (l ++ [x])
  = match l with [] => x | _ => join_sep l +:+ "/" +:+ x end.
Proof.
  induction l as [|a l IH]; [reflexivity|].
  destruct l as [|b l]; [reflexivity|].
  change ((a :: b :: l) ++ [x]) with (a :: (b :: l) ++ [x]).
  change (join_sep (a :: (b :: l) ++ [x]))
    with (a +:+ "/" +:+ join_sep ((b :: l) ++ [x])).
  rewrite IH.
  change (join_sep (a :: b :: l)) with (a +:+ "/" +:+ join_sep (b :: l)).
  now rewrite !append_assoc.
Qed.

Lemma plain_segment_kept (allow : bool) (stack : list string) (seg : string) :
  plain_segment seg = true -> normalize_step allow stack seg = seg :: stack.
Proof.
  unfold plain_segment, normalize_step.
  intros [[[_ H1]%andb_prop H2]%andb_prop H3]%andb_prop.
  apply negb_true_iff in H1, H2, H3. now rewrite H1, H2, H3.
Qed.

Lemma plain_segment_nonempty (seg : string) : plain_segment seg = true -> seg <> "".
Proof.
  unfold plain_segment.
  intros [[[_ H1]%andb_prop _]%andb_prop _]%andb_prop.
  apply negb_true_iff in H1. intros ->. discriminate.
Qed.

Lemma plain_segment_no_sep (seg : string) : plain_segment seg = true -> no_sep seg = true.
Proof.
  unfold plain_segment.
  now intros [[[H _]%andb_prop _]%andb_prop _]%andb_prop.
Qed.

(** *** Normalised paths that end in a plain segment *)

Section EndsInSegment.
Variable y name : string.
Hypothesis Hname : plain_segment name = true.

Let x := y +:+ "/" +:+ name.
Let absolute := starts_with "/" x.
Let below := fold_left (normalize_step (negb absolute)) (split_sep y) [].

Lemma normalizeString_named :
  normalizeString x (negb absolute) = join_sep (rev below ++ [name]).
Proof.
  unfold normalizeString, x. rewrite split_join.
  rewrite (split_no_sep name) by (now apply plain_segment_no_sep).
  rewrite fold_left_app. cbn [fold_left].
  rewrite plain_segment_kept by exact Hname. reflexivity.
Qed.

Lemma named_no_trailing_sep : ends_with_sep x = false.
Proof.
  assert (Hne : name <> "") by (now apply plain_segment_nonempty).
  unfold ends_with_sep, x.
  rewrite <- append_assoc. rewrite (last_char_append _ name Hne).
  destruct (last_char name) as [c|] eqn:Hl; [|reflexivity].
  apply (last_char_no_sep name); [now apply plain_segment_no_sep | exact Hl].
Qed.

Lemma posix_normalize_named :
  posix_normalize x
  = (if absolute then "/" else "") +:+ join_sep (rev below ++ [name]).
Proof.
  assert (Hne : name <> "") by (now apply plain_segment_nonempty).
  assert (Hx : exists c r, x = String c r).
  { unfold x. destruct y as [|c r]; [now exists "/"%char, name|].
    rewrite append_cons. eauto. }
  destruct Hx as (c & r & Hx).
  unfold posix_normalize. rewrite Hx. rewrite <- Hx.
  fold absolute. rewrite named_no_trailing_sep, normalizeString_named.
  destruct (join_sep (rev below ++ [name])) eqn:Hbody.
  - exfalso. rewrite join_sep_snoc in Hbody.
    destruct (rev below) as [|s l]; [congruence|].
    destruct (join_sep (s :: l)); discriminate Hbody.
  - now rewrite append_empty_r.
Qed.
End EndsInSegment.

Lemma starts_with_same (a : string) : starts_with a a = true.
Proof.
  induction a as [|c a IH]; simpl; [reflexivity|].
  now rewrite Ascii.eqb_refl.
Qed.

(** *** [dirname] *)

Lemma string_of_list_app (l1 l2 : list ascii) :
  string_of_list_ascii (l1 ++ l2)
  = string_of_list_ascii l1 +:+ string_of_list_ascii l2.
Proof.
  induction l1 as [|c l1 IH]; [reflexivity|].
  cbn [app string_of_list_ascii]. rewrite append_cons. now rewrite IH.
Qed.

Lemma skip_while_split (f : ascii -> bool) (l : list ascii) :
  exists pre, l = pre ++ skip_while f l /\ forallb f pre = true.
Proof.
  induction l as [|c l (pre & IH & Hpre)]; [now exists []|].
  cbn [skip_while]. destruct (f c) eqn:Hc.
  - exists (c :: pre). split; [cbn; now rewrite <- IH | cbn; now rewrite Hc].
  - now exists [].
Qed.

Lemma skip_while_head (f : ascii -> bool) (l : list ascii) c r :
  skip_while f l = c :: r -> f c = false.
Proof.
  induction l as [|x l IH]; [discriminate|].
  cbn [skip_while]. destruct (f x) eqn:Hx; [exact IH|].
  intros [= <- _]. exact Hx.
Qed.

Lemma skip_while_stops (f : ascii -> bool) (pre : list ascii) c r :
  forallb f pre = true -> f c = false -> skip_while f (pre ++ c :: r) = c :: r.
Proof.
  intros Hpre Hc. induction pre as [|x pre IH]; cbn [app skip_while].
  - now rewrite Hc.
  - cbn [forallb] in Hpre. apply andb_prop in Hpre as [-> Hpre]. now apply IH.
Qed.

Lemma no_sep_chars (s : string) :
  no_sep s = true ->
  forallb (fun c => negb (is_sep c)) (rev (list_ascii_of_string s)) = true.
Proof.
  intros H. apply forallb_forall. intros c Hin. apply in_rev in Hin.
  induction s as [|x s IH]; [destruct Hin|].
  cbn [no_sep] in H. apply andb_prop in H as [Hx Hs].
  destruct Hin as [<-|Hin]; [exact Hx | now apply IH].
Qed.

Lemma last_char_rev (s : string) :
  last_char s = head (rev (list_ascii_of_string s)).
Proof.
  induction s as [|c s IH]; [reflexivity|].
  cbn [last_char list_ascii_of_string rev].
  destruct s as [|d s]; [reflexivity|].
  rewrite IH. cbn [list_ascii_of_string rev].
  destruct (rev (list_ascii_of_string s) ++ [d]) eqn:H; [|reflexivity].
  now apply app_eq_nil in H as [_ H].
Qed.

Lemma starts_with_sep_cons (c : ascii) (r : string) :
  starts_with "/" (String c r) = is_sep c.
Proof.
  cbn [starts_with]. rewrite andb_true_r. apply Ascii.eqb_sym.
Qed.

(** The directory of a path that does not end in a separator holds the
    path. *)
Lemma dirname_under (p : string) :
  p <> "" -> ends_with_sep p = false -> under [dirname p] p = true.
Proof.
  intros Hne Hend. unfold under. cbn [existsb]. rewrite orb_false_r.
  destruct p as [|c0 rest]; [congruence|]. clear Hne.
  unfold dirname.
  set (R := rev (list_ascii_of_string rest)).
  assert (Hrest : rest = string_of_list_ascii (rev R)).
  { unfold R. now rewrite rev_involutive, string_of_list_ascii_of_string. }
  assert (Hskip : skip_while is_sep R = R).
  { destruct rest as [|d rest']; [reflexivity|].
    unfold ends_with_sep in Hend.
    change (last_char (String c0 (String d rest')))
      with (last_char (String d rest')) in Hend.
    rewrite last_char_rev in Hend. fold R in Hend.
    destruct R as [|x R']; [reflexivity|].
    cbn [head] in Hend. cbn [skip_while]. now rewrite Hend. }
  rewrite Hskip.
  destruct (skip_while_split (fun c => negb (is_sep c)) R) as (pre & HR & Hpre).
  destruct (skip_while (fun c => negb (is_sep c)) R) as [|s before] eqn:Htail.
  - (* no separator after the first character *)
    destruct (is_sep c0) eqn:Hc0; unfold under1.
    + change (String.eqb "/" ".") with false.
      change (ends_with_sep "/") with true. cbv iota.
      now rewrite starts_with_sep_cons.
    + change (String.eqb "." ".") with true. cbv iota.
      now rewrite starts_with_sep_cons, Hc0.
  - assert (Hs : is_sep s = true).
    { apply skip_while_head in Htail. now apply negb_false_iff in Htail. }
    apply Ascii.eqb_eq in Hs. subst s.
    assert (Hp : String c0 rest
                 = String c0 (string_of_list_ascii (rev before))
                     +:+ "/" +:+ string_of_list_ascii (rev pre)).
    { rewrite Hrest at 1. rewrite HR, rev_app_distr. cbn [rev].
      rewrite <- app_assoc. cbn [app]. rewrite string_of_list_app.
      cbn [string_of_list_ascii]. reflexivity. }
    rewrite Hp.
    destruct before as [|b before'].
    + cbn [rev string_of_list_ascii].
      destruct (is_sep c0) eqn:Hc0.
      * apply Ascii.eqb_eq in Hc0. subst c0. reflexivity.
      * unfold under1.
        destruct (String.eqb (String c0 "") ".") eqn:Hdot.
        -- rewrite append_cons, starts_with_sep_cons, Hc0. reflexivity.
        -- unfold ends_with_sep. cbn [last_char]. rewrite Hc0.
           rewrite <- append_assoc. apply starts_with_append.
    + set (d := String c0 (string_of_list_ascii (rev (b :: before')))).
      unfold under1.
      assert (Hdot : String.eqb d "." = false).
      { apply String.eqb_neq. unfold d. intros H. injection H as _ H.
        cbn [rev] in H. rewrite string_of_list_app in H.
        cbn [string_of_list_ascii] in H.
        destruct (string_of_list_ascii (rev before')); discriminate H. }
      rewrite Hdot.
      destruct (ends_with_sep d).
      * apply starts_with_append.
      * rewrite <- append_assoc. apply starts_with_append.
Qed.

(** The directory of [d/name] is [d]. *)
Lemma dirname_named (d name : string) :
  d <> "" -> ends_with_sep d = false ->
  no_sep name = true -> name <> "" ->
  dirname (d +:+ "/" +:+ name) = d.
Proof.
  intros Hd Hend Hname Hne.
  destruct d as [|c0 d']; [congruence|]. clear Hd.
  rewrite append_cons. unfold dirname.
  assert (Hrev : rev (list_ascii_of_string (d' +:+ "/" +:+ name))
                 = rev (list_ascii_of_string name)
                     ++ "/"%char :: rev (list_ascii_of_string d')).
  { rewrite <- (string_of_list_ascii_of_string d') at 1.
    rewrite <- (string_of_list_ascii_of_string name) at 1.
    change "/" with (string_of_list_ascii ["/"%char]).
    rewrite <- !string_of_list_app, list_ascii_of_string_of_list_ascii.
    rewrite !rev_app_distr. cbn [rev app]. now rewrite <- app_assoc. }
  rewrite Hrev.
  assert (Hfirst : skip_while is_sep
                     (rev (list_ascii_of_string name)
                        ++ "/"%char :: rev (list_ascii_of_string d'))
                   = rev (list_ascii_of_string name)
                       ++ "/"%char :: rev (list_ascii_of_string d')).
  { pose proof (no_sep_chars name Hname) as Hall.
    destruct (rev (list_ascii_of_string name)) as [|x l] eqn:Hl.
    - exfalso. apply (f_equal (@rev ascii)) in Hl.
      rewrite rev_involutive in Hl. cbn in Hl.
      apply (f_equal string_of_list_ascii) in Hl.
      rewrite string_of_list_ascii_of_string in Hl. now apply Hne.
    - cbn [forallb] in Hall. apply andb_prop in Hall as [Hx _].
      apply negb_true_iff in Hx. cbn [app skip_while]. now rewrite Hx. }
  rewrite Hfirst.
  rewrite skip_while_stops; [|now apply no_sep_chars | reflexivity].
  destruct (rev (list_ascii_of_string d')) as [|b before] eqn:Hb.
  - assert (Hd' : d' = "").
    { apply (f_equal (@rev ascii)) in Hb. rewrite rev_involutive in Hb.
      apply (f_equal string_of_list_ascii) in Hb.
      now rewrite string_of_list_ascii_of_string in Hb. }
    subst d'. unfold ends_with_sep in Hend. cbn [last_char] in Hend.
    now rewrite Hend.
  - rewrite <- Hb, rev_involutive, string_of_list_ascii_of_string. reflexivity.
Qed.

(** *** Joining a directory and a file name *)

Lemma posix_normalize_nonempty (s : string) : posix_normalize s <> "".
Proof.
  unfold posix_normalize. destruct s as [|c r]; [discriminate|].
  destruct (normalizeString (String c r) (negb (starts_with "/" (String c r))))
    as [|b body].
  - destruct (starts_with "/" (String c r)); [discriminate|].
    destruct (ends_with_sep (String c r)); discriminate.
  - destruct (starts_with "/" (String c r)); discriminate.
Qed.

Lemma path_join_nonempty (a b : string) : path_join a b <> "".
Proof.
  unfold path_join. destruct a, b; try discriminate; apply posix_normalize_nonempty.
Qed.

Lemma path_join_full (a b : string) :
  a <> "" -> b <> "" -> path_join a b = posix_normalize (a +:+ "/" +:+ b).
Proof. intros Ha Hb. unfold path_join. destruct a, b; congruence. Qed.

Lemma no_sep_append (a b : string) :
  no_sep a = true -> no_sep b = true -> no_sep (a +:+ b) = true.
Proof.
  intros Ha Hb. induction a as [|c a IH]; [exact Hb|].
  rewrite append_cons. cbn [no_sep] in *.
  apply andb_prop in Ha as [-> Ha]. now apply IH.
Qed.

Lemma length_append (a s : string) :
  String.length (a +:+ s) = String.length a + String.length s.
Proof.
  induction a as [|c a IH]; [reflexivity|].
  rewrite append_cons. cbn [String.length]. now rewrite IH.
Qed.

Lemma plain_segment_long (s : string) :
  no_sep s = true -> 2 < String.length s -> plain_segment s = true.
Proof.
  intros Hs Hlen. unfold plain_segment. rewrite Hs.
  assert (Hneq : forall t, String.length t <= 2 -> String.eqb s t = false).
  { intros t Ht. apply String.eqb_neq. intros ->. lia. }
  rewrite !Hneq by (cbn; lia). reflexivity.
Qed.

(** Every path is a last segment, possibly after a directory part. *)
Lemma last_segment_split (b : string) :
  exists name, no_sep name = true /\ ends_in_segment b name.
Proof.
  induction b as [|c b (name & Hname & [->|(y & ->)])].
  - exists "". split; [reflexivity | now left].
  - destruct (is_sep c) eqn:Hc.
    + apply Ascii.eqb_eq in Hc. subst c.
      exists name. split; [exact Hname | right; now exists ""].
    + exists (String c name). split; [cbn; now rewrite Hc | now left].
  - exists name. split; [exact Hname | right; now exists (String c y)].
Qed.

Lemma ends_in_segment_append (b name suffix : string) :
  ends_in_segment b name -> ends_in_segment (b +:+ suffix) (name +:+ suffix).
Proof.
  intros [->|(y & ->)]; [now left | right; exists y].
  now rewrite !append_assoc.
Qed.

Lemma ends_in_segment_join (a b name : string) :
  ends_in_segment b name -> exists y, a +:+ "/" +:+ b = y +:+ "/" +:+ name.
Proof.
  intros [->|(y & ->)]; [now exists a|].
  exists (a +:+ "/" +:+ y). now rewrite !append_assoc.
Qed.

Lemma ends_in_segment_split (s name : string) :
  no_sep name = true -> ends_in_segment s name ->
  exists l, split_sep s = l ++ [name].
Proof.
  intros Hname [->|(y & ->)].
  - exists []. now apply split_no_sep.
  - exists (split_sep y). rewrite split_join. now rewrite (split_no_sep name).
Qed.

Lemma last_char_none (s : string) : last_char s = None -> s = "".
Proof.
  induction s as [|c s IH]; [reflexivity|].
  cbn [last_char]. destruct s; [discriminate|].
  intros H. now apply IH in H.
Qed.

(** A join whose last segment is plain is a path to a file: it is not
    empty and does not end in a separator. *)
Lemma path_join_names_file (a b name : string) :
  a <> "" -> plain_segment name = true -> ends_in_segment b name ->
  path_join a b <> "" /\ ends_with_sep (path_join a b) = false.
Proof.
  intros Ha Hname Hb. split; [apply path_join_nonempty|].
  assert (Hne : name <> "") by (now apply plain_segment_nonempty).
  assert (Hbne : b <> "").
  { destruct Hb as [->|(y & ->)]; [exact Hne|]. destruct y; discriminate. }
  rewrite path_join_full by assumption.
  destruct (ends_in_segment_join a b name Hb) as (y & ->).
  rewrite posix_normalize_named by exact Hname.
  unfold ends_with_sep. rewrite join_sep_snoc.
  assert (Hlast : forall pre, last_char (pre +:+ name) = last_char name)
    by (intros pre; now apply last_char_append).
  assert (Hsep : match last_char name with Some c => is_sep c | None => false end
                 = false).
  { destruct (last_char name) as [c|] eqn:Hl; [|reflexivity].
    apply (last_char_no_sep name); [now apply plain_segment_no_sep | exact Hl]. }
  match goal with
  | |- context [rev ?l] => destruct (rev l) as [|s0 l0]
  end.
  - now rewrite Hlast.
  - rewrite <- !append_assoc, Hlast. exact Hsep.
Qed.

(** A join of a directory that ends in a plain segment and a plain file
    name is the directory, a separator and the name. *)
Lemma path_join_dir_file (a last name : string) :
  plain_segment last = true -> ends_in_segment a last ->
  plain_segment name = true ->
  exists d,
    path_join a name = d +:+ "/" +:+ name
    /\ d <> "" /\ ends_with_sep d = false.
Proof.
  intros Hlast Ha Hname.
  assert (Hane : a <> "").
  { destruct Ha as [->|(y & ->)]; [now apply plain_segment_nonempty|].
    destruct y; discriminate. }
  rewrite path_join_full by (auto using plain_segment_nonempty).
  rewrite posix_normalize_named by exact Hname.
  destruct (ends_in_segment_split a last) as (l & ->);
    [now apply plain_segment_no_sep | exact Ha |].
  rewrite fold_left_app. cbn [fold_left].
  rewrite plain_segment_kept by exact Hlast.
  cbn [rev]. rewrite join_sep_snoc.
  match goal with
  | |- context [rev ?l0 ++ [last]] => set (segs := rev l0 ++ [last])
  end.
  assert (Hsegs : exists s0 l0, segs = s0 :: l0).
  { unfold segs. destruct (rev _); cbn; eauto. }
  destruct Hsegs as (s0 & l0 & Hs). rewrite Hs. rewrite <- Hs.
  set (pfx := if starts_with "/" _ then "/" else "").
  exists (pfx +:+ join_sep segs).
  assert (Hlc : last_char (pfx +:+ join_sep segs) = last_char last).
  { unfold segs. rewrite join_sep_snoc.
    destruct (rev _).
    - apply last_char_append. now apply plain_segment_nonempty.
    - rewrite <- !append_assoc. apply last_char_append.
      now apply plain_segment_nonempty. }
  split; [now rewrite append_assoc|]. split.
  - intros H. rewrite H in Hlc. symmetry in Hlc.
    apply last_char_none in Hlc. now apply plain_segment_nonempty in Hlast.
  - unfold ends_with_sep. rewrite Hlc.
    destruct (last_char last) as [c|] eqn:Hl; [|reflexivity].
    apply (last_char_no_sep last); [now apply plain_segment_no_sep | exact Hl].
Qed.

Lemma posix_normalize_plain (name : string) :
  plain_segment name = true -> posix_normalize name = name.
Proof.
  intros Hname.
  pose proof (plain_segment_no_sep _ Hname) as Hns.
  pose proof (plain_segment_nonempty _ Hname) as Hne.
  unfold posix_normalize, normalizeString.
  rewrite (split_no_sep name Hns). cbn [fold_left].
  rewrite plain_segment_kept by exact Hname. cbn [rev app join_sep].
  destruct name as [|c r]; [congruence|].
  rewrite starts_with_sep_cons.
  cbn [no_sep] in Hns. apply andb_prop in Hns as [Hc Hr].
  apply negb_true_iff in Hc. rewrite Hc. cbn [negb].
  assert (Hend : ends_with_sep (String c r) = false).
  { unfold ends_with_sep. destruct (last_char (String c r)) as [x|] eqn:Hl; [|reflexivity].
    apply (last_char_no_sep (String c r)); [cbn; now rewrite Hc, Hr | exact Hl]. }
  rewrite Hend. now rewrite append_nil, append_empty_r.
Qed.

(** The join of anything with a plain segment ends in that segment. *)
Lemma path_join_ends_in (t name : string) :
  plain_segment name = true -> ends_in_segment (path_join t name) name.
Proof.
  intros Hname.
  pose proof (plain_segment_nonempty _ Hname) as Hne.
  unfold path_join. destruct t as [|c t].
  - destruct name as [|x r]; [congruence|].
    rewrite posix_normalize_plain by exact Hname. now left.
  - destruct name as [|x r]; [congruence|].
    rewrite posix_normalize_named by exact Hname.
    rewrite join_sep_snoc.
    match goal with
    | |- context [rev ?l] => destruct (rev l) as [|s0 l0]
    end.
    + match goal with
      | |- context [if ?b then _ else _] => destruct b
      end; [right; now exists "" | now left].
    + right. eexists. now rewrite <- append_assoc.
Qed.

(** *** Text that is written and read back *)

(** Facts on byte ranges, by arithmetic. *)
Ltac byte_ranges :=
  unfold is_surrogate, is_cont, byte_in in *;
  repeat match goal with
         | H : _ && _ = true |- _ => apply andb_prop in H; destruct H
         | H : _ && _ = false |- _ => apply andb_false_iff in H
         | H : (_ <=? _)%N = true |- _ => apply N.leb_le in H
         | H : (_ <=? _)%N = false |- _ => apply N.leb_gt in H
         end;
  rewrite ?andb_false_iff, ?andb_true_iff, ?N.leb_le, ?N.leb_gt;
  lia.

Lemma utf8_encode_copy (b0 : ascii) (r0 : string) :
  byte_in 237 237 b0 = false ->
  utf8_encode (String b0 r0) = String b0 (utf8_encode r0).
Proof.
  intros H. destruct r0 as [|b1 [|b2 r2]]; try reflexivity.
  change (utf8_encode (String b0 (String b1 (String b2 r2))))
    with (if is_surrogate b0 b1 b2 then replacement +:+ utf8_encode r2
          else String b0 (utf8_encode (String b1 (String b2 r2)))).
  unfold is_surrogate. now rewrite H.
Qed.

Lemma utf8_encode_copy_low (b0 b1 : ascii) (r1 : string) :
  byte_in 160 191 b1 = false ->
  utf8_encode (String b0 (String b1 r1))
  = String b0 (utf8_encode (String b1 r1)).
Proof.
  intros H. destruct r1 as [|b2 r2]; try reflexivity.
  change (utf8_encode (String b0 (String b1 (String b2 r2))))
    with (if is_surrogate b0 b1 b2 then replacement +:+ utf8_encode r2
          else String b0 (utf8_encode (String b1 (String b2 r2)))).
  unfold is_surrogate. now rewrite H, andb_false_r.
Qed.

(** A well-formed sequence at the head of [s] is a proper prefix of [s]
    that the encoder copies. *)
Lemma utf8_next_well_formed (s bytes rest : string) :
  utf8_next s = (Some bytes, rest) ->
  s = bytes +:+ rest
  /\ String.length rest < String.length s
  /\ utf8_encode s = bytes +:+ utf8_encode rest.
Proof.
  unfold utf8_next. destruct s as [|b0 r0]; [discriminate|].
  destruct (byte_in 0 127 b0) eqn:H1.
  { intros [= <- <-]. repeat split; [cbn; lia|].
    rewrite utf8_encode_copy by byte_ranges. reflexivity. }
  destruct (byte_in 194 223 b0) eqn:H2.
  { destruct r0 as [|b1 r1]; [discriminate|].
    destruct (is_cont b1) eqn:Hb1; [|discriminate].
    intros [= <- <-]. repeat split; [cbn; lia|].
    rewrite utf8_encode_copy by byte_ranges.
    rewrite utf8_encode_copy by byte_ranges. reflexivity. }
  destruct (byte_in 224 239 b0) eqn:H3.
  { destruct r0 as [|b1 r1]; [discriminate|].
    match goal with
    | |- context [byte_in ?lo ?hi b1] => destruct (byte_in lo hi b1) eqn:Hb1
    end; [|discriminate].
    destruct r1 as [|b2 r2]; [discriminate|].
    destruct (is_cont b2) eqn:Hb2; [|discriminate].
    intros [= <- <-]. repeat split; [cbn; lia|].
    assert (Hlow : byte_in 237 237 b0 = true -> byte_in 160 191 b1 = false).
    { intros H. rewrite H in Hb1. clear H1 H2 H3 Hb2.
      destruct (byte_in 224 224 b0); byte_ranges. }
    destruct (byte_in 237 237 b0) eqn:Hed.
    - rewrite utf8_encode_copy_low by auto.
      assert (Hb1' : byte_in 237 237 b1 = false).
      { clear Hlow. destruct (byte_in 224 224 b0); byte_ranges. }
      rewrite utf8_encode_copy by exact Hb1'.
      rewrite utf8_encode_copy by byte_ranges. reflexivity.
    - rewrite utf8_encode_copy by exact Hed.
      assert (Hb1' : byte_in 237 237 b1 = false).
      { clear Hlow. destruct (byte_in 224 224 b0); byte_ranges. }
      rewrite utf8_encode_copy by exact Hb1'.
      rewrite utf8_encode_copy by byte_ranges. reflexivity. }
  destruct (byte_in 240 244 b0) eqn:H4; [|discriminate].
  destruct r0 as [|b1 r1]; [discriminate|].
  match goal with
  | |- context [byte_in ?lo ?hi b1] => destruct (byte_in lo hi b1) eqn:Hb1
  end; [|discriminate].
  destruct r1 as [|b2 r2]; [discriminate|].
  destruct (is_cont b2) eqn:Hb2; [|discriminate].
  destruct r2 as [|b3 r3]; [discriminate|].
  destruct (is_cont b3) eqn:Hb3; [|discriminate].
  intros [= <- <-]. repeat split; [cbn; lia|].
  assert (Hb1' : byte_in 237 237 b1 = false).
  { destruct (byte_in 240 240 b0); destruct (byte_in 244 244 b0); byte_ranges. }
  rewrite utf8_encode_copy by byte_ranges.
  rewrite utf8_encode_copy by exact Hb1'.
  rewrite utf8_encode_copy by byte_ranges.
  rewrite utf8_encode_copy by byte_ranges. reflexivity.
Qed.

Lemma well_formed_upto (n : nat) :
  forall (m : nat) (s : string),
    String.length s <= n -> String.length s <= m ->
    utf8_valid_upto m s = true ->
    utf8_decode_upto m s = s /\ utf8_encode s = s.
Proof.
  induction n as [|n IH]; intros m s Hn Hm Hv.
  - destruct s; [destruct m; now split | cbn in Hn; lia].
  - destruct s as [|b0 r0]; [destruct m; now split|].
    destruct m as [|m]; [discriminate Hv|].
    cbn [utf8_valid_upto utf8_decode_upto] in *.
    destruct (utf8_next (String b0 r0)) as [[bytes|] rest] eqn:Hnext;
      [|discriminate Hv].
    apply utf8_next_well_formed in Hnext as (Hs & Hlen & Henc).
    destruct (IH m rest) as [Hdec Henc']; [lia | lia | exact Hv |].
    rewrite Hdec, Henc, Henc'. now rewrite <- Hs.
Qed.

(** Well-formed text is written as it is and read back as it is. *)
Lemma well_formed_roundtrip (s : string) :
  well_formed s = true -> utf8_encode s = s /\ utf8_decode s = s.
Proof.
  intros H.
  destruct (well_formed_upto (String.length s) (String.length s) s) as [Hd He];
    auto.
Qed.

Lemma utf8_encode_empty (s : string) : utf8_encode s = "" <-> s = "".
Proof.
  split; [|now intros ->].
  destruct s as [|b0 [|b1 [|b2 r2]]]; try reflexivity; try discriminate.
  change (utf8_encode (String b0 (String b1 (String b2 r2))))
    with (if is_surrogate b0 b1 b2 then replacement +:+ utf8_encode r2
          else String b0 (utf8_encode (String b1 (String b2 r2)))).
  destruct (is_surrogate b0 b1 b2); discriminate.
Qed.

(** ** The scratch path *)

Lemma staged_size (X : string) :
  X <> "" -> (String.length (utf8_encode X) =? 0)%nat = false.
Proof.
  intros HX. destruct (utf8_encode X) eqn:H; [|reflexivity].
  apply (proj1 (utf8_encode_empty X)) in H. contradiction.
Qed.

(** The name of the scratch file ends in a plain segment, whatever the
    prefix holds. *)
Lemma state_file_named (this : StateCacheStorage) :
  exists name,
    plain_segment name = true /\ ends_in_segment (state_file_of this) name.
Proof.
  destruct (last_segment_split (statePrefix this)) as (name & Hname & Hends).
  exists (name +:+ "_state.txt"). split.
  - apply plain_segment_long; [now apply no_sep_append|].
    rewrite length_append. cbn. lia.
  - now apply (ends_in_segment_append _ _ "_state.txt") in Hends.
Qed.

(** The scratch file is under the directory that [save] uploads. *)
Lemma scratch_under (tmp : string) (this : StateCacheStorage) :
  under [dirname (scratch_path tmp this)] (scratch_path tmp this) = true.
Proof.
  destruct (state_file_named this) as (name & Hname & Hends).
  destruct (path_join_names_file (scratch_dir tmp) (state_file_of this) name)
    as [Hne Hend]; [apply path_join_nonempty | exact Hname | exact Hends |].
  now apply dirname_under.
Qed.

(** ** Entries under a key *)

Lemma key_eqb_true k e : key_eqb k e = true <-> entry_key e = k.
Proof. unfold key_eqb. apply String.eqb_eq. Qed.

Lemma some_key_listing k (r : list cache_entry) :
  some_key
    (map (fun e => ActionsCache (Some (entry_key e)))
         (List.filter (fun e => starts_with k (entry_key e)) r)) k
  = existsb (key_eqb k) r.
Proof.
  induction r as [|e r IH]; simpl; [reflexivity|].
  destruct (starts_with k (entry_key e)) eqn:Hp; simpl.
  - unfold key_eqb at 1. now rewrite IH.
  - rewrite IH. destruct (key_eqb k e) eqn:He; [|reflexivity].
    apply key_eqb_true in He. rewrite He, starts_with_same in Hp. discriminate.
Qed.

Lemma existsb_count k r : existsb (key_eqb k) r = false <-> count_key k r = 0.
Proof.
  unfold count_key. induction r as [|e r IH]; simpl; [tauto|].
  destruct (key_eqb k e); simpl; [split; [discriminate | lia] | exact IH].
Qed.

Lemma filter_absent k r :
  existsb (key_eqb k) r = false -> List.filter (fun e => negb (key_eqb k e)) r = r.
Proof.
  induction r as [|e r IH]; simpl; [reflexivity|].
  destruct (key_eqb k e); simpl; [discriminate|].
  intros H. now rewrite IH.
Qed.

Lemma count_after_delete k r :
  count_key k (List.filter (fun e => negb (key_eqb k e)) r) = 0.
Proof.
  unfold count_key. induction r as [|e r IH]; simpl; [reflexivity|].
  destruct (key_eqb k e) eqn:He; simpl; [exact IH|].
  rewrite He. exact IH.
Qed.

Lemma find_absent k r :
  existsb (key_eqb k) r = false -> List.find (key_eqb k) r = None.
Proof.
  induction r as [|e r IH]; simpl; [reflexivity|].
  destruct (key_eqb k e); simpl; [discriminate | exact IH].
Qed.

(** ** The existence check *)

Section ExistenceCheck.
Variable flt : faults.
Variable k : string.
Variable w : world.

Lemma checkIfCacheExists_listed :
  client_fault flt = None -> list_fault flt = None ->
  checkIfCacheExists flt k w
  = (Ok (existsb (key_eqb k) (remote w)), add_call (GetActionsCacheList k) w).
Proof.
  intros Hc Hl.
  unfold checkIfCacheExists, getOctokitClient, getActionsCacheList,
    try_catch, bind, guard, ret.
  rewrite Hc, Hl. simpl. now rewrite some_key_listing.
Qed.

Lemma checkIfCacheExists_list_throws e :
  client_fault flt = None -> list_fault flt = Some e ->
  checkIfCacheExists flt k w
  = (Ok false,
     add_log Debug ("Error checking if cache exist: " +:+ message_text e)
       (add_call (GetActionsCacheList k) w)).
Proof.
  intros Hc Hl.
  unfold checkIfCacheExists, getOctokitClient, getActionsCacheList,
    try_catch, bind, guard, ret, throw, core_debug.
  rewrite Hc, Hl. reflexivity.
Qed.

Lemma checkIfCacheExists_no_client e :
  client_fault flt = Some e ->
  checkIfCacheExists flt k w = (Throw e, w).
Proof.
  intros Hc.
  unfold checkIfCacheExists, getOctokitClient, bind, guard, throw.
  now rewrite Hc.
Qed.
End ExistenceCheck.

(** ** Running the steps *)

Lemma bind_ok {A B} (m : M A) (k : A -> M B) w a w1 :
  m w = (Ok a, w1) -> bind m k w = k a w1.
Proof. intros H. unfold bind. now rewrite H. Qed.

Lemma bind_throw {A B} (m : M A) (k : A -> M B) w e w1 :
  m w = (Throw e, w1) -> bind m k w = (Throw e, w1).
Proof. intros H. unfold bind. now rewrite H. Qed.

Lemma set_fs_same w : set_fs (fs w) w = w.
Proof. now destruct w. Qed.

Lemma mkTempDir_ok tmp flt w :
  mkdir_fault flt = None -> mkTempDir tmp flt w = (Ok (scratch_dir tmp), w).
Proof.
  intros H. unfold mkTempDir, mkdirSync, bind, guard, ret. now rewrite H.
Qed.

Lemma mkTempDir_throws tmp flt w e :
  mkdir_fault flt = Some e -> mkTempDir tmp flt w = (Throw e, w).
Proof.
  intros H. unfold mkTempDir, mkdirSync, bind, guard, throw. now rewrite H.
Qed.

Lemma unlinkSafely_removes flt p w :
  unlink_fault flt = None ->
  unlinkSafely flt p w = (Ok tt, set_fs (delete p (fs w)) w).
Proof.
  intros H. unfold unlinkSafely, unlinkSync, try_catch, bind, guard, ret.
  rewrite H. destruct (fs w !! p) eqn:Hp; [reflexivity|].
  rewrite delete_id by exact Hp. now rewrite set_fs_same.
Qed.

Lemma unlinkSafely_ignores flt p w e :
  unlink_fault flt = Some e -> unlinkSafely flt p w = (Ok tt, w).
Proof.
  intros H. unfold unlinkSafely, unlinkSync, try_catch, bind, guard, throw, ret.
  now rewrite H.
Qed.

(** [unlinkSafely] never throws and touches nothing but the disk. *)
Lemma unlinkSafely_total flt p w :
  exists w', unlinkSafely flt p w = (Ok tt, w')
    /\ remote w' = remote w /\ log w' = log w /\ calls w' = calls w.
Proof.
  destruct (unlink_fault flt) as [e|] eqn:H.
  - exists w. now rewrite (unlinkSafely_ignores _ _ _ e).
  - eexists. rewrite unlinkSafely_removes by exact H. now split.
Qed.

Section DeleteStep.
Variable flt : faults.
Variable k : string.
Variable w : world.

Let announced : world :=
  add_call (DeleteActionsCacheByKey k)
    (add_log Debug ("remove cache " +:+ dq +:+ k +:+ dq) w).

Lemma resetCacheWithOctokit_deletes :
  client_fault flt = None -> delete_fault flt = None ->
  existsb (key_eqb k) (remote w) = true ->
  resetCacheWithOctokit flt k w
  = (Ok tt,
     set_remote (List.filter (fun e => negb (key_eqb k e)) (remote w)) announced).
Proof.
  intros Hc Hd He.
  unfold resetCacheWithOctokit, getOctokitClient, deleteActionsCacheByKey,
    try_catch, bind, guard, ret, core_debug.
  rewrite Hc, Hd. simpl. now rewrite He.
Qed.

Lemma resetCacheWithOctokit_warns e :
  client_fault flt = None -> delete_fault flt = Some e ->
  truthy_status e = true ->
  resetCacheWithOctokit flt k w
  = (Ok tt,
     add_log Warning
       ("Error delete " +:+ k +:+ ": ["
        +:+ number_text (default 0%Z (status e)) +:+ "] "
        +:+ message_or e "Unknown reason")
       announced).
Proof.
  intros Hc Hd He.
  unfold resetCacheWithOctokit, getOctokitClient, deleteActionsCacheByKey,
    try_catch, bind, guard, ret, throw, core_debug, core_warning.
  rewrite Hc, Hd. simpl. now rewrite He.
Qed.

Lemma resetCacheWithOctokit_rethrows e :
  client_fault flt = None -> delete_fault flt = Some e ->
  truthy_status e = false ->
  resetCacheWithOctokit flt k w = (Throw e, announced).
Proof.
  intros Hc Hd He.
  unfold resetCacheWithOctokit, getOctokitClient, deleteActionsCacheByKey,
    try_catch, bind, guard, ret, throw, core_debug, core_warning.
  rewrite Hc, Hd. simpl. now rewrite He.
Qed.
End DeleteStep.

(** ** A save in a working environment *)

Section WorkingSave.
Variable tmp : string.
Variable this : StateCacheStorage.
Variable X : string.
Variable w : world.

Let p := scratch_path tmp this.
Let k := cache_key_of this.
Let staged : gmap string string := <[p := utf8_encode X]> (fs w).
Let archive : gmap string string :=
  filter (fun kv : string * string => under [dirname p] kv.1 = true) staged.

Lemma save_working :
  X <> "" ->
  exists w',
    save tmp no_faults this X w = (Ok tt, w')
    /\ fs w' = delete p staged
    /\ remote w'
       = CacheEntry k archive :: List.filter (fun e => negb (key_eqb k e)) (remote w)
    /\ calls w'
       = SaveCache [dirname p] k
           :: (if existsb (key_eqb k) (remote w)
               then [DeleteActionsCacheByKey k] else [])
           ++ GetActionsCacheList k :: calls w.
Proof.
  intros HX.
  assert (Hlen : (String.length (utf8_encode X) =? 0)%nat = false)
    by (now apply staged_size).
  unfold save.
  rewrite (bind_ok _ _ _ _ _ (mkTempDir_ok tmp no_faults w eq_refl)).
  fold p k.
  unfold writeFileSync, try_finally, try_catch, bind at 1 2 3, guard, ret.
  cbn. fold p staged.
  rewrite checkIfCacheExists_listed by reflexivity. cbn.
  destruct (existsb (key_eqb k) (remote w)) eqn:He.
  - unfold bind at 1.
    rewrite resetCacheWithOctokit_deletes by (cbn; auto).
    unfold statSync_size, saveCache, bind, guard, ret. cbn.
    unfold staged at 1. rewrite lookup_insert_eq. rewrite Hlen.
    rewrite unlinkSafely_removes by reflexivity.
    eexists. split; [reflexivity|]. cbn. auto.
  - unfold statSync_size, saveCache, bind, guard, ret. cbn.
    unfold staged at 1. rewrite lookup_insert_eq. rewrite Hlen.
    rewrite unlinkSafely_removes by reflexivity.
    eexists. split; [reflexivity|]. cbn.
    rewrite filter_absent by exact He. auto.
Qed.

Lemma archive_holds_scratch : archive !! p = Some (utf8_encode X).
Proof.
  unfold archive. apply map_lookup_filter_Some. split.
  - unfold staged. apply lookup_insert_eq.
  - cbn. apply scratch_under.
Qed.
End WorkingSave.

Lemma find_present k r e :
  List.find (key_eqb k) r = Some e -> existsb (key_eqb k) r = true.
Proof.
  induction r as [|e' r IH]; cbn; [discriminate|].
  destruct (key_eqb k e'); cbn; auto.
Qed.

Lemma present_find k r :
  existsb (key_eqb k) r = true ->
  exists e, List.find (key_eqb k) r = Some e /\ entry_key e = k.
Proof.
  induction r as [|e' r IH]; cbn; [discriminate|].
  destruct (key_eqb k e') eqn:He; cbn; [|exact IH].
  intros _. exists e'. split; [reflexivity | now apply key_eqb_true].
Qed.

Lemma key_eqb_same k m : key_eqb k (CacheEntry k m) = true.
Proof. unfold key_eqb. cbn. apply String.eqb_refl. Qed.

Lemma find_head k m r :
  List.find (key_eqb k) (CacheEntry k m :: r) = Some (CacheEntry k m).
Proof. cbn [List.find]. now rewrite key_eqb_same. Qed.

(** A save of the empty blob in a working environment. *)
Lemma save_clearing tmp this w :
  let p := scratch_path tmp this in
  let k := cache_key_of this in
  exists w',
    save tmp no_faults this "" w = (Ok tt, w')
    /\ fs w' = delete p (<[p := ""]> (fs w))
    /\ remote w' = List.filter (fun e => negb (key_eqb k e)) (remote w)
    /\ calls w'
       = (if existsb (key_eqb k) (remote w) then [DeleteActionsCacheByKey k] else [])
         ++ GetActionsCacheList k :: calls w.
Proof.
  intros p k. unfold save.
  rewrite (bind_ok _ _ _ _ _ (mkTempDir_ok tmp no_faults w eq_refl)).
  fold p k.
  unfold writeFileSync, try_finally, try_catch, bind at 1 2 3, guard, ret.
  cbn. fold p. change (utf8_encode "") with "".
  rewrite checkIfCacheExists_listed by reflexivity. cbn.
  destruct (existsb (key_eqb k) (remote w)) eqn:He.
  - unfold bind at 1.
    rewrite resetCacheWithOctokit_deletes by (cbn; auto).
    unfold statSync_size, core_info, bind, guard, ret. cbn.
    rewrite lookup_insert_eq. cbn.
    rewrite unlinkSafely_removes by reflexivity.
    eexists. split; [reflexivity|]. cbn. auto.
  - unfold statSync_size, core_info, bind, guard, ret. cbn.
    rewrite lookup_insert_eq. cbn.
    rewrite unlinkSafely_removes by reflexivity.
    eexists. split; [reflexivity|]. cbn.
    rewrite filter_absent by exact He. auto.
Qed.

(** ** Restoring *)

Section Restoring.
Variable tmp : string.
Variable flt : faults.
Variable this : StateCacheStorage.
Variable w : world.

Let p := scratch_path tmp this.
Let k := cache_key_of this.

(** The entry is there, every step works, and the archive holds the
    scratch file: its content comes back. *)
Lemma restore_found e c :
  mkdir_fault flt = None -> client_fault flt = None -> list_fault flt = None ->
  download_fault flt = None -> read_fault flt = None ->
  List.find (key_eqb k) (remote w) = Some e ->
  entry_files e !! p = Some c ->
  exists w',
    restore tmp flt this w = (Ok (utf8_decode c), w') /\ fs w' !! p = Some c.
Proof.
  intros Hm Hc Hl Hd Hr Hfind Hfile.
  unfold restore.
  rewrite (bind_ok _ _ _ _ _ (mkTempDir_ok tmp flt w Hm)).
  fold p k.
  destruct (unlinkSafely_total flt p w) as (w1 & Hu & Hrem & _ & _).
  rewrite (bind_ok _ _ _ _ _ Hu).
  unfold try_catch, bind at 1.
  rewrite checkIfCacheExists_listed by assumption.
  rewrite Hrem, (find_present _ _ _ Hfind). cbn.
  unfold restoreCache, existsSync, readFileSync, bind, guard, ret.
  rewrite Hd, Hr. cbn. rewrite Hrem, Hfind. cbn.
  assert (Hp : (entry_files e ∪ fs w1) !! p = Some c)
    by (now apply lookup_union_Some_l).
  change (path_join (scratch_dir tmp) (state_file_of this)) with p.
  rewrite bool_decide_true by eauto. cbn.
  change (path_join (scratch_dir tmp) (state_file_of this)) with p.
  rewrite Hp.
  eexists. split; [reflexivity | exact Hp].
Qed.

(** The existence check does not answer [true]: the empty string comes
    back, whatever else goes wrong after the scratch directory is there. *)
Lemma restore_not_found :
  mkdir_fault flt = None ->
  client_fault flt <> None \/ list_fault flt <> None
    \/ existsb (key_eqb k) (remote w) = false ->
  exists w', restore tmp flt this w = (Ok "", w').
Proof.
  intros Hm Hno.
  unfold restore.
  rewrite (bind_ok _ _ _ _ _ (mkTempDir_ok tmp flt w Hm)).
  fold p k.
  destruct (unlinkSafely_total flt p w) as (w1 & Hu & Hrem & _ & _).
  rewrite (bind_ok _ _ _ _ _ Hu).
  unfold try_catch, bind at 1.
  destruct (client_fault flt) as [e|] eqn:Hc.
  - rewrite (checkIfCacheExists_no_client _ _ _ e) by exact Hc.
    unfold core_warning, bind, ret. cbn. eauto.
  - destruct (list_fault flt) as [e|] eqn:Hl.
    + rewrite (checkIfCacheExists_list_throws _ _ _ e) by assumption.
      unfold core_info, bind, ret. cbn. eauto.
    + rewrite checkIfCacheExists_listed by assumption.
      destruct Hno as [Hno|[Hno|Hno]]; [congruence | congruence |].
      rewrite Hrem, Hno.
      unfold core_info, bind, ret. cbn. eauto.
Qed.
End Restoring.

(** ** Keys and file names *)

Lemma plain_stale_dir : plain_segment STALE_DIR = true.
Proof. reflexivity. Qed.

(** With a prefix that holds no separator, the scratch path is the
    directory that [save] uploads, a separator and the file name. *)
Lemma scratch_path_in_dir (tmp : string) (this : StateCacheStorage) :
  no_sep (statePrefix this) = true ->
  exists dir,
    scratch_path tmp this = dir +:+ "/" +:+ state_file_of this
    /\ dirname (scratch_path tmp this) = dir.
Proof.
  intros Hprefix.
  assert (Hname : plain_segment (state_file_of this) = true).
  { unfold state_file_of. apply plain_segment_long.
    - now apply no_sep_append.
    - rewrite !length_append. change (String.length STATE_FILE) with 9.
      cbn [String.length]. lia. }
  destruct (path_join_dir_file (scratch_dir tmp) STALE_DIR (state_file_of this))
    as (dir & Hpath & Hne & Hend);
    [exact plain_stale_dir | apply path_join_ends_in, plain_stale_dir
    | exact Hname |].
  exists dir. unfold scratch_path. rewrite Hpath. split; [reflexivity|].
  apply dirname_named; auto using plain_segment_no_sep, plain_segment_nonempty.
Qed.

(** C9.  For every configured prefix the cache key is the prefix followed
    by [_state] and the scratch file name is the prefix followed by
    [_state.txt].  For the configured prefix [foo], in a working
    environment, [save "42"] uploads the directory of the scratch file
    under key [foo_state], the file [foo_state.txt] of that directory
    holding [42], and the following [restore] returns [42]. *)
Theorem key_and_file_names :
  (forall options : IIssuesProcessorOptions,
      cache_key_of (constructor options) = cachePrefix options +:+ "_state"
      /\ state_file_of (constructor options) = cachePrefix options +:+ "_state.txt")
  /\ (forall (tmp : string) (w : world),
         exists (w1 w2 : world) (dir : string) (archive : gmap string string),
           save tmp no_faults (constructor {| cachePrefix := "foo" |}) "42" w
           = (Ok tt, w1)
           /\ scratch_path tmp (constructor {| cachePrefix := "foo" |})
              = dir +:+ "/foo_state.txt"
           /\ head (calls w1) = Some (SaveCache [dir] "foo_state")
           /\ head (remote w1) = Some (CacheEntry "foo_state" archive)
           /\ archive !! (dir +:+ "/foo_state.txt") = Some "42"
           /\ restore tmp no_faults (constructor {| cachePrefix := "foo" |}) w1
              = (Ok "42", w2))
  /\ scratch_path "/tmp" (constructor {| cachePrefix := "foo" |})
     = "/tmp/56acbeaa-1fef-4c79-8f84-7565e560fb03/foo_state.txt".
Proof.
  split; [|split].
  - intros options. split; reflexivity.
  - intros tmp w.
    set (this := constructor {| cachePrefix := "foo" |}).
    destruct (save_working tmp this "42" w) as (w1 & Hs & Hfs & Hrem & Hcalls);
      [discriminate|].
    destruct (scratch_path_in_dir tmp this eq_refl) as (dir & Hpath & Hdir).
    assert (Hfind : List.find (key_eqb (cache_key_of this)) (remote w1)
                    = Some (CacheEntry (cache_key_of this)
                              (filter (fun kv : string * string =>
                                         under [dirname (scratch_path tmp this)] kv.1 = true)
                                      (<[scratch_path tmp this := utf8_encode "42"]> (fs w))))).
    { rewrite Hrem. apply find_head. }
    destruct (restore_found tmp no_faults this w1 _ (utf8_encode "42")
                eq_refl eq_refl eq_refl eq_refl eq_refl Hfind
                (archive_holds_scratch tmp this "42" w)) as (w2 & Hr & _).
    exists w1, w2, dir. eexists. split; [exact Hs|].
    split; [exact Hpath|].
    split; [rewrite Hcalls, Hdir; reflexivity|].
    split; [rewrite Hrem; reflexivity|].
    split; [|exact Hr].
    change (dir +:+ "/foo_state.txt") with (dir +:+ "/" +:+ state_file_of this).
    rewrite <- Hpath. apply (archive_holds_scratch tmp this "42" w).
  - reflexivity.
Qed.

(** ** Round trip *)

(** C2, as the code has it.  For every non-empty blob [X], when every
    step of the environment succeeds, filesystem and backend alike,
    [save X] followed by [restore] returns [X] as the utf8 write and read
    leave it: exactly [X] when [X] is well-formed, and [X] with [U+FFFD] in
    place of each lone surrogate otherwise. *)
Theorem save_restore_roundtrip (tmp : string) (this : StateCacheStorage)
    (X : string) (w : world) :
  X <> "" ->
  exists w1 w2,
    save tmp no_faults this X w = (Ok tt, w1)
    /\ restore tmp no_faults this w1 = (Ok (utf8_decode (utf8_encode X)), w2)
    /\ (well_formed X = true -> utf8_decode (utf8_encode X) = X).
Proof.
  intros HX.
  destruct (save_working tmp this X w HX) as (w1 & Hs & _ & Hrem & _).
  assert (Hfind : List.find (key_eqb (cache_key_of this)) (remote w1)
                  = Some (CacheEntry (cache_key_of this)
                            (filter (fun kv : string * string =>
                                       under [dirname (scratch_path tmp this)] kv.1 = true)
                                    (<[scratch_path tmp this := utf8_encode X]> (fs w))))).
  { rewrite Hrem. apply find_head. }
  destruct (restore_found tmp no_faults this w1 _ (utf8_encode X)
              eq_refl eq_refl eq_refl eq_refl eq_refl Hfind
              (archive_holds_scratch tmp this X w)) as (w2 & Hr & _).
  exists w1, w2. split; [exact Hs|]. split; [exact Hr|].
  intros Hwf. apply well_formed_roundtrip in Hwf as [He Hd]. now rewrite He.
Qed.

Lemma save_restore_roundtrip_witness :
  "42" <> "" /\ well_formed "42" = true
  /\ exists w1 w2,
       save "/tmp" no_faults foo "42" fresh_world = (Ok tt, w1)
       /\ restore "/tmp" no_faults foo w1 = (Ok "42", w2).
Proof.
  split; [discriminate|]. split; [reflexivity|].
  destruct (save_restore_roundtrip "/tmp" foo "42" fresh_world)
    as (w1 & w2 & Hs & Hr & Heq); [discriminate|].
  exists w1, w2. split; [exact Hs|]. rewrite Hr. now rewrite (Heq eq_refl).
Defined.

(** C2 as stated fails twice.  A blob with a lone surrogate does not come
    back as it was: the utf8 write stores [U+FFFD] in its place.  And with
    every backend operation succeeding, a write that fails, as it does for
    a prefix that names a directory which is not there, makes [save]
    throw. *)
Lemma lone_surrogate_not_restored :
  torn_text <> ""
  /\ fst (save "/tmp" no_faults foo torn_text fresh_world) = Ok tt
  /\ fst (restore "/tmp" no_faults foo
            (snd (save "/tmp" no_faults foo torn_text fresh_world)))
     = Ok ("a" +:+ replacement +:+ "b")
  /\ fst (restore "/tmp" no_faults foo
            (snd (save "/tmp" no_faults foo torn_text fresh_world)))
     <> Ok torn_text
  /\ fst (save "/tmp" (write_fails ENOENT) {| statePrefix := "x/y" |} "42" fresh_world)
     = Throw ENOENT.
Proof.
  assert (H : fst (restore "/tmp" no_faults foo
                     (snd (save "/tmp" no_faults foo torn_text fresh_world)))
              = Ok ("a" +:+ replacement +:+ "b")) by (vm_compute; reflexivity).
  split; [discriminate|]. split; [vm_compute; reflexivity|].
  split; [exact H|]. split; [|vm_compute; reflexivity].
  rewrite H. vm_compute. discriminate.
Qed.

(** ** One entry per key *)

Lemma save_count (tmp : string) (this : StateCacheStorage) (X : string) (w : world) :
  let n := count_key (cache_key_of this) (remote (snd (save tmp no_faults this X w))) in
  n <= 1 /\ (X <> "" -> n = 1).
Proof.
  destruct (string_dec X "") as [->|HX].
  - destruct (save_clearing tmp this w) as (w' & Hs & _ & Hrem & _).
    rewrite Hs. cbn [snd]. rewrite Hrem, count_after_delete.
    split; [lia | congruence].
  - destruct (save_working tmp this X w HX) as (w' & Hs & _ & Hrem & _).
    rewrite Hs. cbn [snd]. rewrite Hrem.
    unfold count_key. cbn [List.filter]. rewrite key_eqb_same. cbn [length].
    fold (count_key (cache_key_of this)
            (List.filter (fun e => negb (key_eqb (cache_key_of this) e)) (remote w))).
    rewrite count_after_delete. split; [lia | reflexivity].
Qed.

(** A save that finds an entry under the key deletes it before it
    uploads. *)
Lemma save_deletes_first (tmp : string) (this : StateCacheStorage) (X : string) (w : world) :
  X <> "" ->
  existsb (key_eqb (cache_key_of this)) (remote w) = true ->
  calls (snd (save tmp no_faults this X w))
  = SaveCache [dirname (scratch_path tmp this)] (cache_key_of this)
      :: DeleteActionsCacheByKey (cache_key_of this)
      :: GetActionsCacheList (cache_key_of this) :: calls w.
Proof.
  intros HX He.
  destruct (save_working tmp this X w HX) as (w' & Hs & _ & _ & Hcalls).
  rewrite Hs. cbn [snd]. rewrite Hcalls, He. reflexivity.
Qed.

(** C7.  After any run of successful saves of one store, at most one
    entry is stored under its key: from any world when the run is not
    empty, and from a world that had at most one such entry otherwise.
    Exactly one entry is stored when the last blob saved is not empty, so
    also after saving the same non-empty blob twice. *)
Theorem at_most_one_entry (tmp : string) (this : StateCacheStorage)
    (blobs : list string) (w : world) :
  blobs <> [] \/ count_key (cache_key_of this) (remote w) <= 1 ->
  let n := count_key (cache_key_of this) (remote (save_all tmp this blobs w)) in
  n <= 1 /\ (List.last blobs "" <> "" -> n = 1).
Proof.
  revert w. induction blobs as [|X rest IH]; intros w Hne.
  - destruct Hne as [Hne|Hle]; [congruence|].
    cbn [save_all List.last]. split; [exact Hle | congruence].
  - destruct rest as [|Y rest].
    + cbn [save_all List.last]. apply save_count.
    + change (save_all tmp this (X :: Y :: rest) w)
        with (save_all tmp this (Y :: rest) (snd (save tmp no_faults this X w))).
      change (List.last (X :: Y :: rest) "") with (List.last (Y :: rest) "").
      apply IH. left. discriminate.
Qed.

Lemma at_most_one_entry_witness :
  ["42"; "42"] <> []
  /\ count_key "foo_state" (remote (save_all "/tmp" foo ["42"; "42"] stored_world)) <= 1
  /\ count_key "foo_state" (remote (save_all "/tmp" foo ["42"; "42"] stored_world)) = 1.
Proof.
  split; [discriminate|].
  destruct (at_most_one_entry "/tmp" foo ["42"; "42"] stored_world) as [Hle Heq];
    [left; discriminate|].
  split; [exact Hle | apply Heq; discriminate].
Defined.

(** ** Clearing *)

Lemma checkIfCacheExists_frame flt k w r w' :
  checkIfCacheExists flt k w = (r, w') ->
  fs w' = fs w /\ remote w' = remote w /\ uploads w' = uploads w.
Proof.
  destruct (client_fault flt) as [e|] eqn:Hc.
  - rewrite (checkIfCacheExists_no_client _ _ _ e) by exact Hc.
    intros [= <- <-]. auto.
  - destruct (list_fault flt) as [e|] eqn:Hl.
    + rewrite (checkIfCacheExists_list_throws _ _ _ e) by assumption.
      intros [= <- <-]. auto.
    + rewrite checkIfCacheExists_listed by assumption.
      intros [= <- <-]. auto.
Qed.

Lemma resetCacheWithOctokit_frame flt k w r w' :
  resetCacheWithOctokit flt k w = (r, w') ->
  fs w' = fs w /\ uploads w' = uploads w.
Proof.
  unfold resetCacheWithOctokit, getOctokitClient, deleteActionsCacheByKey,
    try_catch, bind, guard, ret, throw, core_debug, core_warning.
  destruct (client_fault flt); [intros [= <- <-]; auto|].
  destruct (delete_fault flt) as [e|]; cbn.
  - destruct (truthy_status e); intros [= <- <-]; auto.
  - destruct (existsb (key_eqb k) (remote w)); cbn; intros [= <- <-]; auto.
Qed.

(** Saving the empty blob never uploads, whatever the environment does. *)
Lemma save_empty_never_uploads tmp flt this w r w' :
  save tmp flt this "" w = (r, w') -> uploads w' = uploads w.
Proof.
  unfold save.
  destruct (mkdir_fault flt) as [e|] eqn:Hm.
  { rewrite (bind_throw _ _ _ _ _ (mkTempDir_throws tmp flt w e Hm)).
    now intros [= <- <-]. }
  rewrite (bind_ok _ _ _ _ _ (mkTempDir_ok tmp flt w Hm)).
  set (p := path_join (scratch_dir tmp) (state_file_of this)).
  unfold writeFileSync, bind at 1 2, guard, ret, throw.
  destruct (write_fault flt) as [e|]; [now intros [= <- <-]|].
  cbn. unfold try_finally. change (utf8_encode "") with "".
  set (w1 := set_fs (<[p := ""]> (fs w)) w).
  assert (Hup1 : uploads w1 = uploads w) by reflexivity.
  assert (Hbody : forall rb wb,
             try_catch
               (cacheExists <- checkIfCacheExists flt (cache_key_of this) ;;
                (if cacheExists : bool
                 then resetCacheWithOctokit flt (cache_key_of this) else ret tt) ;;
                fileSize <- statSync_size flt p ;;
                if (fileSize =? 0)%nat
                then core_info "the state will be removed"
                else saveCache flt [dirname p] (cache_key_of this))
               (fun error =>
                  core_warning ("Saving the state was not successful due to " +:+ dq
                                +:+ message_or error "unknown reason" +:+ dq)) w1
             = (rb, wb) -> uploads wb = uploads w).
  { intros rb wb. unfold try_catch, bind at 1.
    destruct (checkIfCacheExists flt (cache_key_of this) w1) as [[b|e] w2] eqn:Hchk;
      apply checkIfCacheExists_frame in Hchk as (Hfs2 & _ & Hup2);
      [|unfold core_warning; intros [= <- <-]; exact Hup2].
    unfold bind at 1.
    assert (Hdel : exists rd w3,
               (if b then resetCacheWithOctokit flt (cache_key_of this) else ret tt) w2
               = (rd, w3) /\ fs w3 = fs w2 /\ uploads w3 = uploads w2).
    { destruct b.
      - destruct (resetCacheWithOctokit flt (cache_key_of this) w2) as [rd w3] eqn:Hd.
        exists rd, w3. split; [reflexivity|].
        now apply resetCacheWithOctokit_frame in Hd.
      - exists (Ok tt), w2. auto. }
    destruct Hdel as (rd & w3 & -> & Hfs3 & Hup3).
    destruct rd as [[]|e];
      [|unfold core_warning; intros [= <- <-]; unfold uploads in *; cbn; congruence].
    unfold statSync_size, bind, guard, ret, throw, core_info, core_warning.
    destruct (stat_fault flt); [intros [= <- <-]; unfold uploads in *; cbn; congruence|].
    rewrite Hfs3, Hfs2. unfold w1. cbn. rewrite lookup_insert_eq. cbn.
    intros [= <- <-]. unfold uploads in *. cbn. congruence. }
  match goal with
  | |- context [try_catch ?m ?h w1] =>
      destruct (try_catch m h w1) as [rb wb] eqn:Hb
  end.
  apply Hbody in Hb.
  destruct (unlinkSafely_total flt p wb) as (w4 & Hu & _ & _ & Hc4).
  rewrite Hu. intros [= <- <-]. unfold uploads in *. now rewrite Hc4.
Qed.

(** C6.  Saving the empty blob never uploads, whatever the environment
    does; in a working environment it leaves no entry under the key, and a
    following [restore] whose scratch directory can be made returns the
    empty string. *)
Theorem save_empty_clears (tmp : string) (this : StateCacheStorage)
    (w : world) (flt' : faults) :
  mkdir_fault flt' = None ->
  (forall flt r w', save tmp flt this "" w = (r, w') -> uploads w' = uploads w)
  /\ exists w1 w2,
       save tmp no_faults this "" w = (Ok tt, w1)
       /\ count_key (cache_key_of this) (remote w1) = 0
       /\ restore tmp flt' this w1 = (Ok "", w2).
Proof.
  intros Hm. split.
  - intros flt r w'. apply save_empty_never_uploads.
  - destruct (save_clearing tmp this w) as (w1 & Hs & _ & Hrem & _).
    assert (Hcount : count_key (cache_key_of this) (remote w1) = 0)
      by (rewrite Hrem; apply count_after_delete).
    destruct (restore_not_found tmp flt' this w1 Hm) as (w2 & Hr).
    { right. right. now apply existsb_count. }
    exists w1, w2. auto.
Qed.

Lemma save_empty_clears_witness :
  mkdir_fault no_faults = None
  /\ exists w1 w2,
       save "/tmp" no_faults foo "" stored_world = (Ok tt, w1)
       /\ count_key "foo_state" (remote w1) = 0
       /\ restore "/tmp" no_faults foo w1 = (Ok "", w2).
Proof.
  split; [reflexivity|].
  apply (save_empty_clears "/tmp" foo stored_world no_faults). reflexivity.
Defined.

(** ** Exact match *)

Lemma some_key_exact (caches : list actions_cache) (k : string) :
  some_key caches k = true <-> exists c, In c caches /\ ac_key c = Some k.
Proof.
  unfold some_key. rewrite existsb_exists. split.
  - intros (c & Hin & Hc). exists c. split; [exact Hin|].
    destruct (ac_key c) as [k'|]; [|discriminate].
    apply String.eqb_eq in Hc. now subst.
  - intros (c & Hin & Hc). exists c. split; [exact Hin|].
    rewrite Hc. apply String.eqb_refl.
Qed.

(** C5.  When the listing answers, the existence check answers [true]
    exactly when the listing holds an element whose key equals the cache
    key; elements whose key only starts with it do not count. *)
Theorem existence_check_exact (flt : faults) (k : string) (w w1 : world)
    (resp : option (list actions_cache)) :
  client_fault flt = None ->
  getActionsCacheList flt k w = (Ok resp, w1) ->
  exists b,
    checkIfCacheExists flt k w = (Ok b, w1)
    /\ (b = true <-> exists c, In c (default [] resp) /\ ac_key c = Some k)
    /\ ((forall c, In c (default [] resp) -> ac_key c <> Some k) -> b = false).
Proof.
  intros Hc Hl.
  exists (some_key (default [] resp) k). split; [|split].
  - unfold checkIfCacheExists, getOctokitClient, try_catch, bind at 1 2, guard, ret.
    rewrite Hc. unfold bind. rewrite Hl. reflexivity.
  - apply some_key_exact.
  - intros Hall. destruct (some_key (default [] resp) k) eqn:Hs; [|reflexivity].
    apply some_key_exact in Hs as (c & Hin & Hk). now apply Hall in Hin.
Qed.

Lemma existence_check_exact_witness :
  client_fault no_faults = None
  /\ getActionsCacheList no_faults "foo_state" longer_key_world
     = (Ok (Some [ActionsCache (Some "foo_state_v2")]),
        add_call (GetActionsCacheList "foo_state") longer_key_world)
  /\ checkIfCacheExists no_faults "foo_state" longer_key_world
     = (Ok false, add_call (GetActionsCacheList "foo_state") longer_key_world).
Proof.
  split; [reflexivity|]. split; [reflexivity|].
  destruct (existence_check_exact no_faults "foo_state" longer_key_world
              (add_call (GetActionsCacheList "foo_state") longer_key_world)
              (Some [ActionsCache (Some "foo_state_v2")]) eq_refl eq_refl)
    as (b & Hrun & _ & Hno).
  rewrite Hrun. rewrite Hno; [reflexivity|].
  intros c [<-|[]]. discriminate.
Defined.

(** ** A listing that fails *)

Section ListingFails.
Variable tmp : string.
Variable flt : faults.
Variable this : StateCacheStorage.
Variable w : world.
Variable e : js_error.

Let p := scratch_path tmp this.
Let k := cache_key_of this.

Hypothesis Hclient : client_fault flt = None.
Hypothesis Hlist : list_fault flt = Some e.

Lemma save_list_throws X :
  mkdir_fault flt = None -> write_fault flt = None ->
  stat_fault flt = None -> upload_fault flt = None ->
  X <> "" ->
  exists w' archive,
    save tmp flt this X w = (Ok tt, w')
    /\ calls w' = SaveCache [dirname p] k :: GetActionsCacheList k :: calls w
    /\ remote w' = CacheEntry k archive :: remote w
    /\ archive !! p = Some (utf8_encode X).
Proof.
  intros Hm Hw Hs Hu HX.
  assert (Hlen : (String.length (utf8_encode X) =? 0)%nat = false)
    by (now apply staged_size).
  unfold save.
  rewrite (bind_ok _ _ _ _ _ (mkTempDir_ok tmp flt w Hm)).
  fold p k.
  unfold writeFileSync, try_finally, try_catch, bind at 1 2 3, guard, ret.
  rewrite Hw. cbn. fold p.
  rewrite (checkIfCacheExists_list_throws _ _ _ e) by assumption.
  unfold statSync_size, saveCache, bind, guard, ret.
  rewrite Hs, Hu. cbn. rewrite lookup_insert_eq, Hlen.
  match goal with
  | |- context [unlinkSafely flt ?q ?w0] =>
      destruct (unlinkSafely_total flt q w0) as (w' & -> & Hrem & _ & Hcalls)
  end.
  eexists. eexists. split; [reflexivity|].
  split; [exact Hcalls|]. split; [exact Hrem|].
  apply (archive_holds_scratch tmp this X w).
Qed.
End ListingFails.

(** C10.  When the listing call throws, the existence check answers
    [false] and logs the error at debug level; [save] then makes no delete
    call and uploads, and [restore] returns the empty string. *)
Theorem listing_failure_is_absence (tmp : string) (flt : faults)
    (this : StateCacheStorage) (X : string) (w : world) (e : js_error) :
  client_fault flt = None ->
  list_fault flt = Some e ->
  checkIfCacheExists flt (cache_key_of this) w
  = (Ok false,
     add_log Debug ("Error checking if cache exist: " +:+ message_text e)
       (add_call (GetActionsCacheList (cache_key_of this)) w))
  /\ (mkdir_fault flt = None -> write_fault flt = None ->
      stat_fault flt = None -> upload_fault flt = None -> X <> "" ->
      exists w' archive,
        save tmp flt this X w = (Ok tt, w')
        /\ calls w'
           = SaveCache [dirname (scratch_path tmp this)] (cache_key_of this)
               :: GetActionsCacheList (cache_key_of this) :: calls w
        /\ remote w' = CacheEntry (cache_key_of this) archive :: remote w)
  /\ (mkdir_fault flt = None ->
      exists w', restore tmp flt this w = (Ok "", w')).
Proof.
  intros Hc Hl. split; [|split].
  - now apply checkIfCacheExists_list_throws.
  - intros Hm Hw Hs Hu HX.
    destruct (save_list_throws tmp flt this w e Hc Hl X Hm Hw Hs Hu HX)
      as (w' & archive & Hsave & Hcalls & Hrem & _).
    exists w', archive. auto.
  - intros Hm. apply restore_not_found; [exact Hm|].
    right. left. congruence.
Qed.

Lemma listing_failure_is_absence_witness :
  client_fault (list_fails socket_hang_up) = None
  /\ list_fault (list_fails socket_hang_up) = Some socket_hang_up
  /\ "43" <> ""
  /\ fst (checkIfCacheExists (list_fails socket_hang_up) "foo_state" stored_world)
     = Ok false
  /\ (exists w' archive,
        save "/tmp" (list_fails socket_hang_up) foo "43" stored_world = (Ok tt, w')
        /\ calls w'
           = [SaveCache [dirname (scratch_path "/tmp" foo)] "foo_state";
              GetActionsCacheList "foo_state"]
        /\ remote w' = CacheEntry "foo_state" archive :: remote stored_world)
  /\ (exists w', restore "/tmp" (list_fails socket_hang_up) foo stored_world = (Ok "", w')).
Proof.
  split; [reflexivity|]. split; [reflexivity|]. split; [discriminate|].
  destruct (listing_failure_is_absence "/tmp" (list_fails socket_hang_up) foo "43"
              stored_world socket_hang_up eq_refl eq_refl) as (Hchk & Hsave & Hrest).
  split; [exact (f_equal fst Hchk)|].
  split.
  - apply Hsave; try reflexivity. discriminate.
  - apply Hrest. reflexivity.
Defined.

(** ** A download that leaves no file *)

(** C8.  When the existence check answers [true] and the download returns
    without error but the scratch file is not on disk afterwards,
    [restore] logs a warning and returns the empty string. *)
Theorem restore_missing_file (tmp : string) (flt : faults)
    (this : StateCacheStorage) (w w1 w2 : world) (hit : option string) :
  mkdir_fault flt = None ->
  checkIfCacheExists flt (cache_key_of this)
    (snd (unlinkSafely flt (scratch_path tmp this) w)) = (Ok true, w1) ->
  restoreCache flt [dirname (scratch_path tmp this)] (cache_key_of this) w1
  = (Ok hit, w2) ->
  fs w2 !! scratch_path tmp this = None ->
  restore tmp flt this w
  = (Ok "",
     add_log Warning
       "Unknown error when unpacking the cache, the process starts from the first issue."
       w2).
Proof.
  intros Hm Hchk Hdl Hmiss.
  unfold restore.
  rewrite (bind_ok _ _ _ _ _ (mkTempDir_ok tmp flt w Hm)).
  change (path_join (scratch_dir tmp) (state_file_of this)) with (scratch_path tmp this).
  destruct (unlinkSafely_total flt (scratch_path tmp this) w) as (w0 & Hu & _).
  rewrite Hu in Hchk. cbn [snd] in Hchk.
  rewrite (bind_ok _ _ _ _ _ Hu).
  unfold try_catch, bind at 1. rewrite Hchk. cbn [negb].
  unfold bind at 1. rewrite Hdl.
  unfold existsSync, bind, ret, core_warning.
  rewrite Hmiss. rewrite bool_decide_false by (apply is_Some_None). 
  reflexivity.
Qed.

Lemma restore_missing_file_witness :
  mkdir_fault no_faults = None
  /\ checkIfCacheExists no_faults "foo_state"
       (snd (unlinkSafely no_faults foo_scratch hollow_world))
     = (Ok true, add_call (GetActionsCacheList "foo_state") hollow_world)
  /\ fst (restoreCache no_faults [dirname foo_scratch] "foo_state"
            (add_call (GetActionsCacheList "foo_state") hollow_world))
     = Ok (Some "foo_state")
  /\ fst (restore "/tmp" no_faults foo hollow_world) = Ok ""
  /\ head (log (snd (restore "/tmp" no_faults foo hollow_world)))
     = Some (Warning,
             "Unknown error when unpacking the cache, the process starts from the first issue.").
Proof.
  split; [reflexivity|]. split; [reflexivity|]. split; [reflexivity|].
  rewrite (restore_missing_file "/tmp" no_faults foo hollow_world
             (add_call (GetActionsCacheList "foo_state") hollow_world)
             (snd (restoreCache no_faults [dirname foo_scratch] "foo_state"
                     (add_call (GetActionsCacheList "foo_state") hollow_world)))
             (Some "foo_state") eq_refl eq_refl eq_refl eq_refl).
  split; reflexivity.
Defined.

(** ** What [restore] returns *)

(** C4, as the code has it.  Once the scratch directory is there,
    [restore] returns normally whatever the environment does, and it
    returns a non-empty string only when the client, the listing, the
    download and the read all worked and an entry is stored under the
    key; in every other case it returns the empty string. *)
Theorem restore_returns (tmp : string) (flt : faults)
    (this : StateCacheStorage) (w : world) :
  mkdir_fault flt = None ->
  exists s w',
    restore tmp flt this w = (Ok s, w')
    /\ (s <> "" ->
        client_fault flt = None /\ list_fault flt = None
        /\ download_fault flt = None /\ read_fault flt = None
        /\ existsb (key_eqb (cache_key_of this)) (remote w) = true).
Proof.
  intros Hm.
  set (k := cache_key_of this).
  destruct (client_fault flt) as [e|] eqn:Hc.
  { destruct (restore_not_found tmp flt this w Hm) as (w' & Hr).
    { left. congruence. }
    exists "", w'. split; [exact Hr | congruence]. }
  destruct (list_fault flt) as [e|] eqn:Hl.
  { destruct (restore_not_found tmp flt this w Hm) as (w' & Hr).
    { right. left. congruence. }
    exists "", w'. split; [exact Hr | congruence]. }
  destruct (existsb (key_eqb k) (remote w)) eqn:He.
  2:{ destruct (restore_not_found tmp flt this w Hm) as (w' & Hr).
      { right. right. exact He. }
      exists "", w'. split; [exact Hr | congruence]. }
  unfold restore.
  rewrite (bind_ok _ _ _ _ _ (mkTempDir_ok tmp flt w Hm)).
  set (p := path_join (scratch_dir tmp) (state_file_of this)).
  destruct (unlinkSafely_total flt p w) as (w1 & Hu & Hrem & _ & _).
  rewrite (bind_ok _ _ _ _ _ Hu).
  unfold try_catch, bind at 1.
  rewrite checkIfCacheExists_listed by assumption.
  fold k. rewrite Hrem, He. cbn [negb].
  unfold restoreCache, existsSync, readFileSync, bind, guard, ret, throw, core_warning.
  destruct (download_fault flt) as [e|]; cbn.
  { eexists. eexists. split; [reflexivity | congruence]. }
  destruct (List.find (key_eqb k) (remote w1)) as [e0|]; cbn.
  - destruct ((entry_files e0 ∪ fs w1) !! p) as [data|] eqn:Hp; cbn.
    + destruct (read_fault flt) as [e|]; cbn.
      * eexists. eexists. split; [reflexivity | congruence].
      * rewrite Hp. eexists. eexists. split; [reflexivity | auto].
    + eexists. eexists. split; [reflexivity | congruence].
  - destruct (fs w1 !! p) as [data|] eqn:Hp; cbn.
    + destruct (read_fault flt) as [e|]; cbn.
      * eexists. eexists. split; [reflexivity | congruence].
      * rewrite Hp. eexists. eexists. split; [reflexivity | auto].
    + eexists. eexists. split; [reflexivity | congruence].
Qed.

Lemma restore_returns_witness :
  mkdir_fault (list_fails socket_hang_up) = None
  /\ exists s w',
       restore "/tmp" (list_fails socket_hang_up) foo stored_world = (Ok s, w')
       /\ (s <> "" ->
           client_fault (list_fails socket_hang_up) = None
           /\ list_fault (list_fails socket_hang_up) = None
           /\ download_fault (list_fails socket_hang_up) = None
           /\ read_fault (list_fails socket_hang_up) = None
           /\ existsb (key_eqb (cache_key_of foo)) (remote stored_world) = true).
Proof.
  split; [reflexivity|].
  apply (restore_returns "/tmp" (list_fails socket_hang_up) foo stored_world).
  reflexivity.
Defined.

(** C4 as stated fails: when the scratch directory cannot be made,
    [mkTempDir] throws before the [try] of [restore] is entered, and the
    exception reaches the caller. *)
Lemma restore_throws_without_scratch_dir :
  restore "/tmp" (mkdir_fails EACCES) foo fresh_world = (Throw EACCES, fresh_world)
  /\ ~ (exists s w', restore "/tmp" (mkdir_fails EACCES) foo fresh_world = (Ok s, w')).
Proof.
  assert (H : restore "/tmp" (mkdir_fails EACCES) foo fresh_world
              = (Throw EACCES, fresh_world)) by reflexivity.
  split; [exact H|].
  intros (s & w' & Hok). rewrite H in Hok. discriminate.
Qed.

(** ** A delete that fails *)

Section DeleteFails.
Variable tmp : string.
Variable flt : faults.
Variable this : StateCacheStorage.
Variable X : string.
Variable w : world.
Variable e : js_error.

Let p := scratch_path tmp this.
Let k := cache_key_of this.

Hypothesis Hmkdir : mkdir_fault flt = None.
Hypothesis Hwrite : write_fault flt = None.
Hypothesis Hclient : client_fault flt = None.
Hypothesis Hlist : list_fault flt = None.
Hypothesis Hdelete : delete_fault flt = Some e.
Hypothesis Hexists : existsb (key_eqb k) (remote w) = true.

(** The error has a status: a warning, and the upload follows. *)
Lemma save_delete_warned :
  truthy_status e = true ->
  stat_fault flt = None -> upload_fault flt = None -> X <> "" ->
  exists w' archive,
    save tmp flt this X w = (Ok tt, w')
    /\ log w'
       = (Warning,
          "Error delete " +:+ k +:+ ": ["
          +:+ number_text (default 0%Z (status e)) +:+ "] "
          +:+ message_or e "Unknown reason")
           :: (Debug, "remove cache " +:+ dq +:+ k +:+ dq) :: log w
    /\ calls w'
       = SaveCache [dirname p] k :: DeleteActionsCacheByKey k
           :: GetActionsCacheList k :: calls w
    /\ remote w' = CacheEntry k archive :: remote w.
Proof.
  intros Ht Hs Hu HX.
  assert (Hlen : (String.length (utf8_encode X) =? 0)%nat = false)
    by (now apply staged_size).
  unfold save.
  rewrite (bind_ok _ _ _ _ _ (mkTempDir_ok tmp flt w Hmkdir)).
  fold p k.
  unfold writeFileSync, try_finally, try_catch, bind at 1 2 3, guard, ret.
  rewrite Hwrite. cbn. fold p.
  rewrite checkIfCacheExists_listed by assumption. cbn.
  rewrite Hexists. unfold bind at 1.
  rewrite (resetCacheWithOctokit_warns _ _ _ e) by assumption.
  unfold statSync_size, saveCache, bind, guard, ret.
  rewrite Hs, Hu. cbn. rewrite lookup_insert_eq, Hlen.
  match goal with
  | |- context [unlinkSafely flt ?q ?w0] =>
      destruct (unlinkSafely_total flt q w0) as (w' & -> & Hrem & Hlog & Hcalls)
  end.
  eexists. eexists. split; [reflexivity|].
  split; [exact Hlog|]. split; [exact Hcalls | exact Hrem].
Qed.

(** The error has no status: the helper rethrows it, the [catch] of
    [save] turns it into a warning, and nothing is uploaded. *)
Lemma save_delete_rethrown :
  truthy_status e = false ->
  exists w',
    save tmp flt this X w = (Ok tt, w')
    /\ log w'
       = (Warning,
          "Saving the state was not successful due to " +:+ dq
          +:+ message_or e "unknown reason" +:+ dq)
           :: (Debug, "remove cache " +:+ dq +:+ k +:+ dq) :: log w
    /\ calls w' = DeleteActionsCacheByKey k :: GetActionsCacheList k :: calls w
    /\ remote w' = remote w.
Proof.
  intros Ht.
  unfold save.
  rewrite (bind_ok _ _ _ _ _ (mkTempDir_ok tmp flt w Hmkdir)).
  fold p k.
  unfold writeFileSync, try_finally, try_catch, bind at 1 2 3, guard, ret.
  rewrite Hwrite. cbn. fold p.
  rewrite checkIfCacheExists_listed by assumption. cbn.
  rewrite Hexists. unfold bind at 1.
  rewrite (resetCacheWithOctokit_rethrows _ _ _ e) by assumption.
  unfold core_warning.
  match goal with
  | |- context [unlinkSafely flt ?q ?w0] =>
      destruct (unlinkSafely_total flt q w0) as (w' & -> & Hrem & Hlog & Hcalls)
  end.
  eexists. split; [reflexivity|].
  split; [exact Hlog|]. split; [exact Hcalls | exact Hrem].
Qed.
End DeleteFails.

(** C3, as the code has it.  During [save], when the delete call fails
    with an error that carries a status, [resetCacheWithOctokit] logs a
    warning and returns, and [save] goes on to upload.  When the error
    carries no status, [resetCacheWithOctokit] rethrows it; the [catch] of
    [save] logs it as a warning, the upload is skipped, and [save] itself
    returns normally. *)
Theorem delete_failure_handling (tmp : string) (flt : faults)
    (this : StateCacheStorage) (X : string) (w : world) (e : js_error) :
  mkdir_fault flt = None -> write_fault flt = None ->
  client_fault flt = None -> list_fault flt = None ->
  delete_fault flt = Some e ->
  existsb (key_eqb (cache_key_of this)) (remote w) = true ->
  (truthy_status e = true ->
   (forall w0, fst (resetCacheWithOctokit flt (cache_key_of this) w0) = Ok tt)
   /\ (stat_fault flt = None -> upload_fault flt = None -> X <> "" ->
       exists w' archive,
         save tmp flt this X w = (Ok tt, w')
         /\ log w'
            = (Warning,
               "Error delete " +:+ cache_key_of this +:+ ": ["
               +:+ number_text (default 0%Z (status e)) +:+ "] "
               +:+ message_or e "Unknown reason")
                :: (Debug, "remove cache " +:+ dq +:+ cache_key_of this +:+ dq) :: log w
         /\ calls w'
            = SaveCache [dirname (scratch_path tmp this)] (cache_key_of this)
                :: DeleteActionsCacheByKey (cache_key_of this)
                :: GetActionsCacheList (cache_key_of this) :: calls w
         /\ remote w' = CacheEntry (cache_key_of this) archive :: remote w))
  /\ (truthy_status e = false ->
      (forall w0, fst (resetCacheWithOctokit flt (cache_key_of this) w0) = Throw e)
      /\ exists w',
           save tmp flt this X w = (Ok tt, w')
           /\ log w'
              = (Warning,
                 "Saving the state was not successful due to " +:+ dq
                 +:+ message_or e "unknown reason" +:+ dq)
                  :: (Debug, "remove cache " +:+ dq +:+ cache_key_of this +:+ dq) :: log w
           /\ calls w'
              = DeleteActionsCacheByKey (cache_key_of this)
                  :: GetActionsCacheList (cache_key_of this) :: calls w
           /\ remote w' = remote w).
Proof.
  intros Hm Hw Hc Hl Hd He. split.
  - intros Ht. split.
    + intros w0. now rewrite (resetCacheWithOctokit_warns _ _ _ e).
    + intros Hs Hu HX. now apply save_delete_warned.
  - intros Ht. split.
    + intros w0. now rewrite (resetCacheWithOctokit_rethrows _ _ _ e).
    + now apply save_delete_rethrown.
Qed.

Lemma delete_failure_handling_witness :
  (mkdir_fault (delete_fails forbidden) = None
   /\ write_fault (delete_fails forbidden) = None
   /\ client_fault (delete_fails forbidden) = None
   /\ list_fault (delete_fails forbidden) = None
   /\ delete_fault (delete_fails forbidden) = Some forbidden
   /\ existsb (key_eqb (cache_key_of foo)) (remote stored_world) = true
   /\ truthy_status forbidden = true
   /\ "43" <> ""
   /\ exists w' archive,
        save "/tmp" (delete_fails forbidden) foo "43" stored_world = (Ok tt, w')
        /\ log w'
           = [(Warning, "Error delete foo_state: [403] Forbidden");
              (Debug, "remove cache " +:+ dq +:+ "foo_state" +:+ dq)]
        /\ calls w'
           = [SaveCache [dirname (scratch_path "/tmp" foo)] "foo_state";
              DeleteActionsCacheByKey "foo_state";
              GetActionsCacheList "foo_state"]
        /\ remote w' = CacheEntry "foo_state" archive :: remote stored_world)
  /\ (delete_fault (delete_fails socket_hang_up) = Some socket_hang_up
      /\ truthy_status socket_hang_up = false
      /\ exists w',
           save "/tmp" (delete_fails socket_hang_up) foo "43" stored_world = (Ok tt, w')
           /\ log w'
              = [(Warning,
                  "Saving the state was not successful due to " +:+ dq
                  +:+ "socket hang up" +:+ dq);
                 (Debug, "remove cache " +:+ dq +:+ "foo_state" +:+ dq)]
           /\ calls w'
              = [DeleteActionsCacheByKey "foo_state"; GetActionsCacheList "foo_state"]
           /\ remote w' = remote stored_world).
Proof.
  split.
  - repeat (split; [reflexivity|]).
    split; [discriminate|].
    destruct (delete_failure_handling "/tmp" (delete_fails forbidden) foo "43"
                stored_world forbidden eq_refl eq_refl eq_refl eq_refl eq_refl eq_refl)
      as [Hstatus _].
    destruct (Hstatus eq_refl) as [_ Hsave].
    apply Hsave; [reflexivity | reflexivity | discriminate].
  - repeat (split; [reflexivity|]).
    destruct (delete_failure_handling "/tmp" (delete_fails socket_hang_up) foo "43"
                stored_world socket_hang_up
                eq_refl eq_refl eq_refl eq_refl eq_refl eq_refl)
      as [_ Hplain].
    destruct (Hplain eq_refl) as [_ Hsave]. exact Hsave.
Defined.

(** C3 as stated fails in its second half: an error without a status
    leaves [resetCacheWithOctokit] as an exception but does not leave
    [save], which returns normally. *)
Lemma delete_error_stays_inside_save :
  truthy_status socket_hang_up = false
  /\ fst (resetCacheWithOctokit (delete_fails socket_hang_up) "foo_state" stored_world)
     = Throw socket_hang_up
  /\ fst (save "/tmp" (delete_fails socket_hang_up) foo "43" stored_world) = Ok tt
  /\ fst (save "/tmp" (delete_fails socket_hang_up) foo "43" stored_world)
     <> Throw socket_hang_up.
Proof.
  assert (H : fst (save "/tmp" (delete_fails socket_hang_up) foo "43" stored_world)
              = Ok tt) by reflexivity.
  repeat (split; [reflexivity|]). rewrite H. discriminate.
Qed.

(** ** The scratch file *)

Lemma union_origin (m1 m2 : gmap string string) (p c : string) :
  m2 !! p = None -> (m1 ∪ m2) !! p = Some c -> m1 !! p = Some c.
Proof.
  intros Hnone Hl. apply lookup_union_Some_raw in Hl as [Hl|[_ Hl]];
    [exact Hl | congruence].
Qed.

(** The call has returned: name the final world. *)
Ltac returned :=
  let H := fresh "Hret" in
  intros H; inversion H; subst; clear H.

Section Scratch.
Variable tmp : string.
Variable flt : faults.
Variable this : StateCacheStorage.
Variable w : world.

Let p := scratch_path tmp this.
Let k := cache_key_of this.

Hypothesis Hunlink : unlink_fault flt = None.

Lemma save_leaves_no_scratch X w' :
  save tmp flt this X w = (Ok tt, w') -> fs w' !! p = None.
Proof.
  unfold save.
  destruct (mkdir_fault flt) as [e|] eqn:Hm.
  { now rewrite (bind_throw _ _ _ _ _ (mkTempDir_throws tmp flt w e Hm)). }
  rewrite (bind_ok _ _ _ _ _ (mkTempDir_ok tmp flt w Hm)).
  fold p.
  unfold writeFileSync, bind at 1 2, guard, ret, throw.
  destruct (write_fault flt) as [e|]; [discriminate|].
  cbn. unfold try_finally.
  match goal with
  | |- context [try_catch ?m ?h ?w0] => destruct (try_catch m h w0) as [rb wb]
  end.
  rewrite unlinkSafely_removes by exact Hunlink. cbn.
  intros H. inversion H; subst. cbn. apply lookup_delete_eq.
Qed.

Lemma restore_scratch_origin s w' c :
  restore tmp flt this w = (Ok s, w') ->
  fs w' !! p = Some c ->
  exists e,
    List.find (key_eqb k) (remote w) = Some e /\ entry_files e !! p = Some c.
Proof.
  unfold restore.
  destruct (mkdir_fault flt) as [e|] eqn:Hm.
  { now rewrite (bind_throw _ _ _ _ _ (mkTempDir_throws tmp flt w e Hm)). }
  rewrite (bind_ok _ _ _ _ _ (mkTempDir_ok tmp flt w Hm)).
  fold p k.
  rewrite (bind_ok _ _ _ _ _ (unlinkSafely_removes flt p w Hunlink)).
  set (w1 := set_fs (delete p (fs w)) w).
  assert (Hgone : fs w1 !! p = None) by apply lookup_delete_eq.
  unfold try_catch, bind at 1.
  destruct (checkIfCacheExists flt k w1) as [[b|e] w2] eqn:Hchk;
    apply checkIfCacheExists_frame in Hchk as (Hfs2 & Hrem2 & _).
  2:{ unfold core_warning, bind, ret. cbn. returned. cbn. congruence. }
  destruct b; cbn [negb].
  2:{ unfold core_info, bind, ret. cbn. returned. cbn. congruence. }
  unfold restoreCache, existsSync, readFileSync, bind, guard, ret, throw,
    core_warning.
  destruct (download_fault flt) as [e|]; cbn.
  { returned. cbn. congruence. }
  rewrite Hrem2. change (remote w1) with (remote w).
  destruct (List.find (key_eqb k) (remote w)) as [e0|]; cbn;
    change (path_join (scratch_dir tmp) (state_file_of this)) with p.
  - assert (Hgone2 : fs w2 !! p = None) by congruence.
    destruct (bool_decide (is_Some ((entry_files e0 ∪ fs w2) !! p))); cbn.
    + destruct (read_fault flt) as [e|]; cbn.
      * returned. cbn. intros Hl. exists e0. split; [reflexivity|].
        exact (union_origin _ _ _ _ Hgone2 Hl).
      * change (path_join (scratch_dir tmp) (state_file_of this)) with p.
        destruct ((entry_files e0 ∪ fs w2) !! p) eqn:Hread; cbn; returned; cbn;
          intros Hl; exists e0; (split; [reflexivity|]);
          exact (union_origin _ _ _ _ Hgone2 Hl).
    + returned. cbn. intros Hl. exists e0. split; [reflexivity|].
      exact (union_origin _ _ _ _ Hgone2 Hl).
  - destruct (bool_decide (is_Some (fs w2 !! p))); cbn.
    + destruct (read_fault flt) as [e|]; cbn.
      * returned. cbn. congruence.
      * change (path_join (scratch_dir tmp) (state_file_of this)) with p.
        destruct (fs w2 !! p); cbn; returned; cbn; congruence.
    + returned. cbn. congruence.
Qed.
End Scratch.

(** C1, as the code has it.  When the unlink works, the scratch file is
    not on disk after a [save] that returns, and it is on disk after a
    [restore] that returns only if the download put it there, with the
    content archived in the cache entry; [restore] removes a stale scratch
    file before the download and does not remove the downloaded one. *)
Theorem scratch_cleanliness (tmp : string) (flt : faults)
    (this : StateCacheStorage) (w : world) :
  unlink_fault flt = None ->
  (forall X w',
      save tmp flt this X w = (Ok tt, w') ->
      fs w' !! scratch_path tmp this = None)
  /\ (forall s w' c,
         restore tmp flt this w = (Ok s, w') ->
         fs w' !! scratch_path tmp this = Some c ->
         exists e,
           List.find (key_eqb (cache_key_of this)) (remote w) = Some e
           /\ entry_files e !! scratch_path tmp this = Some c).
Proof.
  intros Hu. split.
  - intros X w'. now apply save_leaves_no_scratch.
  - intros s w' c. now apply restore_scratch_origin.
Qed.

Lemma scratch_cleanliness_witness :
  unlink_fault no_faults = None
  /\ fs (snd (save "/tmp" no_faults foo "42" fresh_world)) !! scratch_path "/tmp" foo
     = None
  /\ exists e,
       List.find (key_eqb (cache_key_of foo)) (remote stored_world) = Some e
       /\ entry_files e !! scratch_path "/tmp" foo = Some "42".
Proof.
  split; [reflexivity|].
  destruct (scratch_cleanliness "/tmp" no_faults foo fresh_world eq_refl) as [Hsave _].
  destruct (scratch_cleanliness "/tmp" no_faults foo stored_world eq_refl) as [_ Hrest].
  split.
  - apply (Hsave "42"). reflexivity.
  - apply (Hrest "42" (snd (restore "/tmp" no_faults foo stored_world)) "42");
      reflexivity.
Defined.

(** C1 as stated fails for [restore]: after a successful [restore] the
    downloaded scratch file is still on disk. *)
Lemma scratch_survives_restore :
  fst (restore "/tmp" no_faults foo stored_world) = Ok "42"
  /\ fs (snd (restore "/tmp" no_faults foo stored_world)) !! scratch_path "/tmp" foo
     = Some "42"
  /\ fs (snd (restore "/tmp" no_faults foo stored_world)) !! scratch_path "/tmp" foo
     <> None.
Proof.
  assert (H : fs (snd (restore "/tmp" no_faults foo stored_world))
                !! scratch_path "/tmp" foo = Some "42") by reflexivity.
  split; [reflexivity|]. split; [exact H|]. rewrite H. discriminate.
Qed.


(** * Further properties of the module *)

(** ** Footprints: what each function can change *)

Section Footprint.
Variable T : Type.
Variable f : world -> T.
Variable tmp : string.
Variable flt : faults.

Hypothesis f_log : forall l s w, f (add_log l s w) = f w.
Hypothesis f_call : forall c w, f (add_call c w) = f w.

Lemma checkIfCacheExists_keeps k w r w' :
  checkIfCacheExists flt k w = (r, w') -> f w' = f w.
Proof.
  destruct (client_fault flt) as [e|] eqn:Hc.
  - rewrite (checkIfCacheExists_no_client _ _ _ e) by exact Hc. now returned.
  - destruct (list_fault flt) as [e|] eqn:Hl.
    + rewrite (checkIfCacheExists_list_throws _ _ _ e) by assumption.
      returned. now rewrite f_log, f_call.
    + rewrite checkIfCacheExists_listed by assumption.
      returned. now rewrite f_call.
Qed.

Lemma resetCacheWithOctokit_keeps k w r w' :
  (forall w0, f (set_remote (List.filter (fun e => negb (key_eqb k e)) (remote w0)) w0)
              = f w0) ->
  resetCacheWithOctokit flt k w = (r, w') -> f w' = f w.
Proof.
  intros f_del.
  unfold resetCacheWithOctokit, getOctokitClient, deleteActionsCacheByKey,
    try_catch, bind, guard, ret, throw, core_debug, core_warning.
  destruct (client_fault flt); [now returned|].
  destruct (delete_fault flt) as [e|]; cbv beta iota.
  - destruct (truthy_status e); returned; now rewrite ?f_log, ?f_call, ?f_log.
  - match goal with
    | |- context [existsb ?g ?l] => destruct (existsb g l)
    end; cbv beta iota; returned.
    + transitivity (f (add_call (DeleteActionsCacheByKey k)
                         (add_log Debug ("remove cache " +:+ dq +:+ k +:+ dq) w)));
        [exact (f_del _) | now rewrite f_call, f_log].
    + now rewrite f_log, f_call, f_log.
Qed.

Lemma unlinkSafely_keeps p w r w' :
  (forall w0, f (set_fs (delete p (fs w0)) w0) = f w0) ->
  unlinkSafely flt p w = (r, w') -> f w' = f w.
Proof.
  intros f_unlink.
  destruct (unlink_fault flt) as [e|] eqn:Hu.
  - rewrite (unlinkSafely_ignores _ _ _ e) by exact Hu. now returned.
  - rewrite unlinkSafely_removes by exact Hu. returned. apply f_unlink.
Qed.

(** [save] changes the world only by writing and unlinking its scratch
    file, deleting the entries under its key, adding one entry under its
    key, logging and calling. *)
Lemma save_keeps this X w r w' :
  let p := scratch_path tmp this in
  let k := cache_key_of this in
  (forall data w0, f (set_fs (<[p := data]> (fs w0)) w0) = f w0) ->
  (forall w0, f (set_fs (delete p (fs w0)) w0) = f w0) ->
  (forall w0, f (set_remote (List.filter (fun e => negb (key_eqb k e)) (remote w0)) w0)
              = f w0) ->
  (forall a w0, f (set_remote (CacheEntry k a :: remote w0) w0) = f w0) ->
  save tmp flt this X w = (r, w') -> f w' = f w.
Proof.
  intros p k f_write f_unlink f_del f_up.
  unfold save.
  destruct (mkdir_fault flt) as [e|] eqn:Hm.
  { rewrite (bind_throw _ _ _ _ _ (mkTempDir_throws tmp flt w e Hm)). now returned. }
  rewrite (bind_ok _ _ _ _ _ (mkTempDir_ok tmp flt w Hm)).
  fold p k.
  unfold writeFileSync, bind at 1 2, guard, ret, throw.
  destruct (write_fault flt) as [e|]; [now returned|].
  cbv beta iota. change (path_join (scratch_dir tmp) (state_file_of this)) with p.
  unfold try_finally.
  set (w1 := set_fs (<[p := utf8_encode X]> (fs w)) w).
  assert (H1 : f w1 = f w) by apply f_write.
  match goal with
  | |- context [try_catch ?m ?h w1] =>
      destruct (try_catch m h w1) as [rb wb] eqn:Hb
  end.
  assert (Hbody : f wb = f w).
  { revert Hb. unfold try_catch, bind at 1.
    destruct (checkIfCacheExists flt k w1) as [[b|e] w2] eqn:Hchk;
      apply checkIfCacheExists_keeps in Hchk;
      [|unfold core_warning; returned; rewrite f_log; congruence].
    unfold bind at 1.
    match goal with
    | |- context [(if b then ?m1 else ?m2) w2] =>
        assert (Hdel : exists rd w3,
                   (if b then m1 else m2) w2 = (rd, w3) /\ f w3 = f w2)
    end.
    { destruct b.
      - destruct (resetCacheWithOctokit flt k w2) as [rd w3] eqn:Hd.
        exists rd, w3. split; [reflexivity|].
        eapply resetCacheWithOctokit_keeps; [exact f_del | exact Hd].
      - exists (Ok tt), w2. auto. }
    destruct Hdel as (rd & w3 & -> & H3).
    destruct rd as [[]|e];
      [|unfold core_warning; returned; rewrite f_log; congruence].
    unfold statSync_size, saveCache, bind, guard, ret, throw, core_info, core_warning.
    destruct (stat_fault flt); [returned; rewrite f_log; congruence|].
    destruct (fs w3 !! p) as [data|]; [|returned; rewrite f_log; congruence].
    destruct (String.length data =? 0)%nat; [returned; rewrite f_log; congruence|].
    destruct (upload_fault flt); cbv beta iota; returned.
    - rewrite f_log, f_call. congruence.
    - etransitivity; [exact (f_up _ (add_call _ w3))|].
      rewrite f_call. congruence. }
  destruct (unlinkSafely flt p wb) as [ru wu] eqn:Hu.
  apply (unlinkSafely_keeps _ _ _ _ f_unlink) in Hu.
  destruct ru; returned; congruence.
Qed.

(** [restore] changes the world only by unlinking its scratch file,
    unpacking an entry stored under its key, logging and calling. *)
Lemma restore_keeps this w r w' :
  let p := scratch_path tmp this in
  let k := cache_key_of this in
  (forall w0, f (set_fs (delete p (fs w0)) w0) = f w0) ->
  (forall e w0, entry_key e = k -> f (set_fs (entry_files e ∪ fs w0) w0) = f w0) ->
  restore tmp flt this w = (r, w') -> f w' = f w.
Proof.
  intros p k f_unlink f_unpack.
  unfold restore.
  destruct (mkdir_fault flt) as [e|] eqn:Hm.
  { rewrite (bind_throw _ _ _ _ _ (mkTempDir_throws tmp flt w e Hm)). now returned. }
  rewrite (bind_ok _ _ _ _ _ (mkTempDir_ok tmp flt w Hm)).
  change (path_join (scratch_dir tmp) (state_file_of this)) with p. fold k.
  destruct (unlinkSafely_total flt p w) as (w1 & Hu & _).
  assert (H1 : f w1 = f w)
    by (eapply unlinkSafely_keeps; [exact f_unlink | exact Hu]).
  rewrite (bind_ok _ _ _ _ _ Hu).
  unfold try_catch, bind at 1.
  destruct (checkIfCacheExists flt k w1) as [[b|e] w2] eqn:Hchk;
    apply checkIfCacheExists_keeps in Hchk.
  2:{ unfold core_warning, bind, ret. (cbn [negb]; cbv beta iota). returned. rewrite f_log. congruence. }
  destruct b; cbn [negb].
  2:{ unfold core_info, bind, ret. (cbn [negb]; cbv beta iota). returned. rewrite f_log. congruence. }
  unfold restoreCache, existsSync, readFileSync, bind, guard, ret, throw,
    core_warning.
  destruct (download_fault flt) as [e|]; (cbn [negb]; cbv beta iota).
  { returned. rewrite f_log, f_call. congruence. }
  match goal with
  | |- context [List.find ?g ?l] =>
      change l with (remote w2); destruct (List.find g (remote w2)) as [e0|] eqn:Hfind
  end; (cbn [negb]; cbv beta iota).
  - assert (Hk : entry_key e0 = k).
    { apply find_some in Hfind as [_ Hk]. now apply key_eqb_true. }
    assert (Hun : forall w0, f (set_fs (entry_files e0 ∪ fs w0) w0) = f w0)
      by (intros w0; now apply f_unpack).
    match goal with
    | |- context [bool_decide ?P] => destruct (bool_decide P)
    end; (cbn [negb]; cbv beta iota).
    + destruct (read_fault flt) as [e|]; (cbn [negb]; cbv beta iota).
      * returned. rewrite f_log.
        etransitivity; [exact (Hun (add_call _ w2))|].
        rewrite f_call. congruence.
      * match goal with
        | |- context [match ?x with Some _ => _ | None => _ end] => destruct x
        end; (cbn [negb]; cbv beta iota); returned; rewrite ?f_log;
          (etransitivity; [exact (Hun (add_call _ w2))|]);
          rewrite f_call; congruence.
    + returned. rewrite f_log.
      etransitivity; [exact (Hun (add_call _ w2))|].
      rewrite f_call. congruence.
  - match goal with
    | |- context [bool_decide ?P] => destruct (bool_decide P)
    end; (cbn [negb]; cbv beta iota).
    + destruct (read_fault flt) as [e|]; (cbn [negb]; cbv beta iota).
      * returned. rewrite f_log, f_call. congruence.
      * match goal with
        | |- context [match ?x with Some _ => _ | None => _ end] => destruct x
        end; (cbn [negb]; cbv beta iota); returned; rewrite ?f_log, f_call; congruence.
    + returned. rewrite f_log, f_call. congruence.
Qed.
End Footprint.

(** ** When [save] throws *)

Lemma try_catch_warning_returns (m : M unit) (g : js_error -> string) (w : world) :
  exists w', try_catch m (fun error => core_warning (g error)) w = (Ok tt, w').
Proof.
  unfold try_catch, core_warning.
  destruct (m w) as [[[]|e] w1]; eauto.
Qed.

Lemma save_throws_mkdir tmp flt this X w e :
  mkdir_fault flt = Some e -> save tmp flt this X w = (Throw e, w).
Proof.
  intros Hm. unfold save.
  now rewrite (bind_throw _ _ _ _ _ (mkTempDir_throws tmp flt w e Hm)).
Qed.

Lemma save_throws_write tmp flt this X w e :
  mkdir_fault flt = None -> write_fault flt = Some e ->
  save tmp flt this X w = (Throw e, w).
Proof.
  intros Hm Hw. unfold save.
  rewrite (bind_ok _ _ _ _ _ (mkTempDir_ok tmp flt w Hm)).
  unfold writeFileSync, bind at 1 2, guard, ret, throw.
  now rewrite Hw.
Qed.

Lemma save_returns tmp flt this X w :
  mkdir_fault flt = None -> write_fault flt = None ->
  exists w', save tmp flt this X w = (Ok tt, w').
Proof.
  intros Hm Hw. unfold save.
  rewrite (bind_ok _ _ _ _ _ (mkTempDir_ok tmp flt w Hm)).
  unfold writeFileSync, bind at 1 2, guard, ret, throw.
  rewrite Hw. cbv beta iota. unfold try_finally.
  match goal with
  | |- context [try_catch ?m (fun error => core_warning (@?g error)) ?w0] =>
      destruct (try_catch_warning_returns m g w0) as (wb & ->)
  end.
  match goal with
  | |- context [unlinkSafely flt ?q wb] =>
      destruct (unlinkSafely_total flt q wb) as (w' & -> & _)
  end.
  eauto.
Qed.

(** X1.  [save] throws exactly when the scratch directory cannot be made
    or the scratch file cannot be written, and then with that very error
    and before anything else happened; in every other environment it
    returns normally. *)
Theorem save_outcome (tmp : string) (flt : faults) (this : StateCacheStorage)
    (X : string) (w : world) :
  fst (save tmp flt this X w)
  = match mkdir_fault flt, write_fault flt with
    | Some e, _ => Throw e
    | None, Some e => Throw e
    | None, None => Ok tt
    end
  /\ (forall e, fst (save tmp flt this X w) = Throw e ->
                snd (save tmp flt this X w) = w).
Proof.
  destruct (mkdir_fault flt) as [e|] eqn:Hm.
  { rewrite (save_throws_mkdir _ _ _ _ _ e Hm). auto. }
  destruct (write_fault flt) as [e|] eqn:Hw.
  { rewrite (save_throws_write _ _ _ _ _ e Hm Hw). auto. }
  destruct (save_returns tmp flt this X w Hm Hw) as (w' & ->).
  split; [reflexivity | intros e He; discriminate He].
Qed.

(** ** The helpers *)

(** X2.  [unlinkSafely] never throws; it leaves the cache, the log and
    every other file alone, and when the unlink itself works the file is
    gone afterwards, whether or not it was there before. *)
Theorem unlinkSafely_safe (flt : faults) (p : string) (w : world) :
  exists w',
    unlinkSafely flt p w = (Ok tt, w')
    /\ remote w' = remote w /\ log w' = log w /\ calls w' = calls w
    /\ (forall q, q <> p -> fs w' !! q = fs w !! q)
    /\ (unlink_fault flt = None -> fs w' !! p = None)
    /\ (fs w !! p = None -> fs w' = fs w).
Proof.
  destruct (unlink_fault flt) as [e|] eqn:Hu.
  - exists w. rewrite (unlinkSafely_ignores _ _ _ e) by exact Hu.
    repeat split; auto; discriminate.
  - eexists. rewrite unlinkSafely_removes by exact Hu.
    repeat split; cbn.
    + intros q Hq. now apply lookup_delete_ne.
    + intros _. apply lookup_delete_eq.
    + intros Hp. now apply delete_id.
Qed.

Lemma unlinkSafely_safe_witness :
  exists w',
    unlinkSafely no_faults foo_scratch stale_world = (Ok tt, w')
    /\ fs w' !! "/home/runner/notes.txt" = Some "keep"
    /\ fs w' !! foo_scratch = None.
Proof.
  destruct (unlinkSafely_safe no_faults foo_scratch stale_world)
    as (w' & Hrun & _ & _ & _ & Hother & Hgone & _).
  exists w'. split; [exact Hrun|]. split.
  - rewrite Hother by discriminate. reflexivity.
  - apply Hgone. reflexivity.
Defined.

(** X3.  [resetCacheWithOctokit] throws only when the client cannot be
    made or when the delete call fails with an error whose status is
    missing or zero; a delete that fails with a status, and a delete of a
    key that has no entry, both return normally. *)
Theorem resetCacheWithOctokit_outcome (flt : faults) (k : string) (w : world) :
  fst (resetCacheWithOctokit flt k w)
  = match client_fault flt with
    | Some e => Throw e
    | None =>
        match delete_fault flt with
        | Some e => if truthy_status e then Ok tt else Throw e
        | None => Ok tt
        end
    end.
Proof.
  unfold resetCacheWithOctokit, getOctokitClient, deleteActionsCacheByKey,
    try_catch, bind, guard, ret, throw, core_debug, core_warning.
  destruct (client_fault flt); [reflexivity|].
  destruct (delete_fault flt) as [e|]; cbn.
  - now destruct (truthy_status e).
  - now destruct (existsb (key_eqb k) (remote w)).
Qed.

(** X4.  Deleting a key that has no entry is not fatal: the backend's
    404 is logged as a warning and the cache is left as it was. *)
Theorem delete_missing_key_warns (flt : faults) (k : string) (w : world) :
  client_fault flt = None -> delete_fault flt = None ->
  existsb (key_eqb k) (remote w) = false ->
  exists w',
    resetCacheWithOctokit flt k w = (Ok tt, w')
    /\ remote w' = remote w /\ fs w' = fs w
    /\ head (log w') = Some (Warning, "Error delete " +:+ k +:+ ": [404] Not Found")
    /\ calls w' = DeleteActionsCacheByKey k :: calls w.
Proof.
  intros Hc Hd He.
  unfold resetCacheWithOctokit, getOctokitClient, deleteActionsCacheByKey,
    try_catch, bind, guard, ret, throw, core_debug, core_warning.
  rewrite Hc, Hd. cbn. rewrite He. cbn.
  eexists. split; [reflexivity|]. cbn. auto.
Qed.

Lemma delete_missing_key_warns_witness :
  client_fault no_faults = None /\ delete_fault no_faults = None
  /\ existsb (key_eqb "foo_state") (remote longer_key_world) = false
  /\ exists w',
       resetCacheWithOctokit no_faults "foo_state" longer_key_world = (Ok tt, w')
       /\ remote w' = remote longer_key_world
       /\ head (log w') = Some (Warning, "Error delete foo_state: [404] Not Found").
Proof.
  repeat (split; [reflexivity|]).
  destruct (delete_missing_key_warns no_faults "foo_state" longer_key_world
              eq_refl eq_refl eq_refl) as (w' & Hrun & Hrem & _ & Hlog & _).
  exists w'. auto.
Defined.

(** ** What [save] leaves alone *)

(** X5.  Whatever the environment does, [save] changes no file other
    than the one at its scratch path, the path that [path.join] makes of
    the temp directory, the scratch directory and the file name. *)
Theorem save_other_files_untouched (tmp : string) (flt : faults)
    (this : StateCacheStorage) (X : string) (w : world) (q : string) :
  q <> scratch_path tmp this ->
  fs (snd (save tmp flt this X w)) !! q = fs w !! q.
Proof.
  intros Hq.
  destruct (save tmp flt this X w) as [r w'] eqn:Hs. cbn [snd].
  apply (save_keeps _ (fun w0 => fs w0 !! q) tmp flt) in Hs; auto.
  - intros data w0. cbn. now apply lookup_insert_ne.
  - intros w0. cbn. now apply lookup_delete_ne.
Qed.

Lemma save_other_files_untouched_witness :
  "/home/runner/notes.txt" <> scratch_path "/tmp" foo
  /\ fs (snd (save "/tmp" no_faults foo "43" stale_world)) !! "/home/runner/notes.txt"
     = Some "keep".
Proof.
  split; [discriminate|].
  rewrite (save_other_files_untouched "/tmp" no_faults foo "43" stale_world
             "/home/runner/notes.txt"); [reflexivity | discriminate].
Defined.

Lemma filter_other_key k k' r :
  k' <> k ->
  List.filter (key_eqb k') (List.filter (fun e => negb (key_eqb k e)) r)
  = List.filter (key_eqb k') r.
Proof.
  intros Hne. induction r as [|e r IH]; [reflexivity|].
  cbn [List.filter]. destruct (key_eqb k e) eqn:Hk; cbn [negb List.filter].
  - apply key_eqb_true in Hk.
    destruct (key_eqb k' e) eqn:Hk'; [|exact IH].
    apply key_eqb_true in Hk'. congruence.
  - now rewrite IH.
Qed.

Lemma key_eqb_other k k' a : k' <> k -> key_eqb k' (CacheEntry k a) = false.
Proof.
  intros Hne. destruct (key_eqb k' (CacheEntry k a)) eqn:H; [|reflexivity].
  apply key_eqb_true in H. cbn in H. congruence.
Qed.

(** X6.  Whatever the environment does, [save] leaves the entries stored
    under every other key as they were, in number and in order: the
    delete and the upload only ever name the store's own key. *)
Theorem save_other_keys_untouched (tmp : string) (flt : faults)
    (this : StateCacheStorage) (X : string) (w : world) (k' : string) :
  k' <> cache_key_of this ->
  List.filter (key_eqb k') (remote (snd (save tmp flt this X w)))
  = List.filter (key_eqb k') (remote w).
Proof.
  intros Hk.
  destruct (save tmp flt this X w) as [r w'] eqn:Hs. cbn [snd].
  apply (save_keeps _ (fun w0 => List.filter (key_eqb k') (remote w0)) tmp flt)
    in Hs; auto.
  - intros w0. cbn. now apply filter_other_key.
  - intros a w0. cbn [remote set_remote List.filter].
    now rewrite key_eqb_other.
Qed.

Lemma save_other_keys_untouched_witness :
  "bar_state" <> cache_key_of foo
  /\ List.filter (key_eqb "bar_state")
       (remote (snd (save "/tmp" no_faults foo "43" stale_world)))
     = [CacheEntry "bar_state" ∅].
Proof.
  split; [discriminate|].
  rewrite (save_other_keys_untouched "/tmp" no_faults foo "43" stale_world "bar_state");
    [reflexivity | discriminate].
Defined.

(** ** What [restore] reads and what it leaves alone *)

(** X7.  Whatever the environment does, [restore] leaves the remote
    cache exactly as it was. *)
Theorem restore_keeps_remote (tmp : string) (flt : faults)
    (this : StateCacheStorage) (w : world) :
  remote (snd (restore tmp flt this w)) = remote w.
Proof.
  destruct (restore tmp flt this w) as [r w'] eqn:Hr. cbn [snd].
  now apply (restore_keeps _ remote tmp flt) in Hr.
Qed.

Lemma restore_throws_mkdir tmp flt this w e :
  mkdir_fault flt = Some e -> restore tmp flt this w = (Throw e, w).
Proof.
  intros Hm. unfold restore.
  now rewrite (bind_throw _ _ _ _ _ (mkTempDir_throws tmp flt w e Hm)).
Qed.

Lemma union_over_deleted (m1 m2 : gmap string string) (p : string) :
  (m1 ∪ delete p m2) !! p = m1 !! p.
Proof.
  destruct (m1 !! p) as [c|] eqn:H1.
  - now apply lookup_union_Some_l.
  - apply lookup_union_None. split; [exact H1 | apply lookup_delete_eq].
Qed.

(** The value of [restore] when the entry-time unlink works. *)
Lemma restore_value tmp flt this w :
  mkdir_fault flt = None -> unlink_fault flt = None ->
  fst (restore tmp flt this w)
  = Ok (match client_fault flt, list_fault flt, download_fault flt,
              List.find (key_eqb (cache_key_of this)) (remote w) with
        | None, None, None, Some e0 =>
            match entry_files e0 !! scratch_path tmp this, read_fault flt with
            | Some c, None => utf8_decode c
            | _, _ => ""
            end
        | _, _, _, _ => ""
        end).
Proof.
  intros Hm Hu.
  set (k := cache_key_of this). set (p := scratch_path tmp this).
  assert (Hnot : client_fault flt <> None \/ list_fault flt <> None
                 \/ existsb (key_eqb k) (remote w) = false ->
                 fst (restore tmp flt this w) = Ok "").
  { intros H. destruct (restore_not_found tmp flt this w Hm H) as (w' & ->).
    reflexivity. }
  destruct (client_fault flt) as [e|] eqn:Hc.
  { apply Hnot. left. discriminate. }
  destruct (list_fault flt) as [e|] eqn:Hl.
  { apply Hnot. right. left. discriminate. }
  destruct (List.find (key_eqb k) (remote w)) as [e0|] eqn:Hfind.
  2:{ rewrite Hnot; [now destruct (download_fault flt)|].
      right. right.
      destruct (existsb (key_eqb k) (remote w)) eqn:He; [|reflexivity].
      apply present_find in He as (e1 & He1 & _). congruence. }
  clear Hnot. unfold restore.
  rewrite (bind_ok _ _ _ _ _ (mkTempDir_ok tmp flt w Hm)).
  change (path_join (scratch_dir tmp) (state_file_of this)) with p. fold k.
  rewrite (bind_ok _ _ _ _ _ (unlinkSafely_removes flt p w Hu)).
  unfold try_catch, bind at 1.
  rewrite checkIfCacheExists_listed by assumption.
  change (remote (set_fs (delete p (fs w)) w)) with (remote w).
  rewrite (find_present _ _ _ Hfind). cbn [negb].
  unfold restoreCache, existsSync, readFileSync, bind, guard, ret, throw,
    core_warning.
  destruct (download_fault flt) as [e|]; [reflexivity|].
  cbn. rewrite Hfind. cbn.
  change (path_join (scratch_dir tmp) (state_file_of this)) with p.
  rewrite union_over_deleted.
  destruct (entry_files e0 !! p) as [c|] eqn:Hp; cbn.
  - destruct (read_fault flt) as [e|]; cbn; [reflexivity|].
    change (path_join (scratch_dir tmp) (state_file_of this)) with p.
    now rewrite union_over_deleted, Hp.
  - reflexivity.
Qed.

(** X8.  When the entry-time unlink works, what [restore] returns
    depends on the world only through the latest cache entry stored under
    its key: the local disk, and a stale scratch file in particular, has no
    influence on it. *)
Theorem restore_reads_remote_only (tmp : string) (flt : faults)
    (this : StateCacheStorage) (w1 w2 : world) :
  unlink_fault flt = None ->
  List.find (key_eqb (cache_key_of this)) (remote w1)
  = List.find (key_eqb (cache_key_of this)) (remote w2) ->
  fst (restore tmp flt this w1) = fst (restore tmp flt this w2).
Proof.
  intros Hu Hfind.
  destruct (mkdir_fault flt) as [e|] eqn:Hm.
  - now rewrite !(restore_throws_mkdir _ _ _ _ e Hm).
  - rewrite !restore_value by assumption. now rewrite Hfind.
Qed.

Lemma restore_reads_remote_only_witness :
  unlink_fault no_faults = None
  /\ List.find (key_eqb (cache_key_of foo)) (remote stale_world)
     = List.find (key_eqb (cache_key_of foo)) (remote stored_world)
  /\ fst (restore "/tmp" no_faults foo stale_world) = Ok "42".
Proof.
  split; [reflexivity|]. split; [reflexivity|].
  rewrite (restore_reads_remote_only "/tmp" no_faults foo stale_world stored_world
             eq_refl eq_refl).
  reflexivity.
Defined.

(** X9.  [restore] does not consume the state: in an environment whose
    unlink works, a second [restore] returns what the first one
    returned. *)
Theorem restore_repeatable (tmp : string) (flt : faults)
    (this : StateCacheStorage) (w : world) :
  unlink_fault flt = None ->
  fst (restore tmp flt this (snd (restore tmp flt this w)))
  = fst (restore tmp flt this w).
Proof.
  intros Hu.
  destruct (mkdir_fault flt) as [e|] eqn:Hm.
  - rewrite (restore_throws_mkdir _ _ _ w e Hm). cbn [snd].
    now rewrite (restore_throws_mkdir _ _ _ w e Hm).
  - destruct (restore tmp flt this w) as [r w'] eqn:Hr.
    assert (Hrem : remote w' = remote w)
      by (now apply (restore_keeps _ remote tmp flt) in Hr).
    pose proof (restore_value tmp flt this w Hm Hu) as Hv.
    rewrite Hr in Hv. cbn [fst snd] in *.
    rewrite Hv, restore_value by assumption. now rewrite Hrem.
Qed.

Lemma restore_repeatable_witness :
  unlink_fault no_faults = None
  /\ fst (restore "/tmp" no_faults foo (snd (restore "/tmp" no_faults foo stored_world)))
     = Ok "42".
Proof.
  split; [reflexivity|].
  rewrite (restore_repeatable "/tmp" no_faults foo stored_world eq_refl).
  reflexivity.
Defined.

(** ** Several stores *)

Lemma append_cancel_r (s a b : string) : a +:+ s = b +:+ s -> a = b.
Proof.
  revert b. induction a as [|c a IH]; intros [|d b] H.
  - reflexivity.
  - apply (f_equal String.length) in H.
    rewrite append_nil, append_cons in H. cbn [String.length] in H.
    rewrite length_append in H. lia.
  - apply (f_equal String.length) in H.
    rewrite append_nil, append_cons in H. cbn [String.length] in H.
    rewrite length_append in H. lia.
  - rewrite !append_cons in H. injection H as -> H.
    f_equal. now apply IH.
Qed.

Lemma starts_with_sep_append (a b : string) :
  a <> "" -> starts_with "/" (a +:+ b) = starts_with "/" a.
Proof.
  intros Ha. destruct a as [|c a]; [congruence|].
  rewrite append_cons. now rewrite !starts_with_sep_cons.
Qed.

(** A [./] in front of a file name does not change where the join with a
    directory leads. *)
Lemma path_join_dot (d f name : string) :
  d <> "" -> plain_segment name = true -> ends_in_segment f name ->
  path_join d ("./" +:+ f) = path_join d f.
Proof.
  intros Hd Hname Hf.
  assert (Hfne : f <> "").
  { destruct Hf as [->|(y & ->)]; [now apply plain_segment_nonempty|].
    destruct y; discriminate. }
  rewrite !path_join_full by (auto; discriminate).
  assert (Hdot : forall allow stack, normalize_step allow stack "." = stack)
    by reflexivity.
  destruct Hf as [->|(y & ->)].
  - replace (d +:+ "/" +:+ "./" +:+ name) with ((d +:+ "/" +:+ ".") +:+ "/" +:+ name)
      by (now rewrite !append_assoc).
    rewrite !posix_normalize_named by exact Hname.
    rewrite split_join, fold_left_app.
    change (split_sep ".") with ["."]. cbn [fold_left]. rewrite Hdot.
    rewrite !append_assoc, !starts_with_sep_append by exact Hd. reflexivity.
  - replace (d +:+ "/" +:+ "./" +:+ y +:+ "/" +:+ name)
      with ((d +:+ "/" +:+ "." +:+ "/" +:+ y) +:+ "/" +:+ name)
      by (now rewrite !append_assoc).
    replace (d +:+ "/" +:+ y +:+ "/" +:+ name)
      with ((d +:+ "/" +:+ y) +:+ "/" +:+ name)
      by (now rewrite !append_assoc).
    rewrite !posix_normalize_named by exact Hname.
    rewrite !split_join, !fold_left_app.
    change (split_sep ".") with ["."]. cbn [fold_left]. rewrite Hdot.
    rewrite !append_assoc, !starts_with_sep_append by exact Hd. reflexivity.
Qed.

(** X10.  Two configured stores have the same cache key, and the same
    scratch file name, exactly when their prefixes are equal.  Their
    scratch paths need not differ: [path.join] normalises, so that the
    prefixes [./b] and [b] lead to one scratch file. *)
Theorem keys_injective (o1 o2 : IIssuesProcessorOptions) :
  (cache_key_of (constructor o1) = cache_key_of (constructor o2)
   <-> cachePrefix o1 = cachePrefix o2)
  /\ (state_file_of (constructor o1) = state_file_of (constructor o2)
      <-> cachePrefix o1 = cachePrefix o2)
  /\ (forall tmp b,
         scratch_path tmp (constructor {| cachePrefix := "./" +:+ b |})
         = scratch_path tmp (constructor {| cachePrefix := b |})).
Proof.
  split; [|split].
  - unfold cache_key_of, constructor. cbn [statePrefix].
    split; intros H; [now apply append_cancel_r in H | now rewrite H].
  - unfold state_file_of, constructor. cbn [statePrefix].
    split; intros H; [now apply append_cancel_r in H | now rewrite H].
  - intros tmp b.
    destruct (state_file_named (constructor {| cachePrefix := b |}))
      as (name & Hname & Hends).
    unfold scratch_path.
    change (state_file_of (constructor {| cachePrefix := "./" +:+ b |}))
      with (("./" +:+ b) +:+ "_" +:+ STATE_FILE).
    rewrite append_assoc.
    apply (path_join_dot _ _ name); [apply path_join_nonempty | exact Hname | exact Hends].
Qed.

Lemma find_as_filter k r :
  List.find (key_eqb k) r = head (List.filter (key_eqb k) r).
Proof.
  induction r as [|e r IH]; [reflexivity|].
  cbn [List.find List.filter]. now destruct (key_eqb k e).
Qed.

(** X11.  Stores with different prefixes do not interfere: whatever
    happens during a [save] of one store, a following [restore] of the
    other (with a working unlink) returns what it would have returned
    without that [save]. *)
Theorem stores_isolated (tmp : string) (flt1 flt2 : faults)
    (a b : StateCacheStorage) (X : string) (w : world) :
  statePrefix a <> statePrefix b ->
  unlink_fault flt2 = None ->
  fst (restore tmp flt2 b (snd (save tmp flt1 a X w)))
  = fst (restore tmp flt2 b w).
Proof.
  intros Hne Hu.
  assert (Hk : cache_key_of b <> cache_key_of a).
  { unfold cache_key_of. intros H. apply append_cancel_r in H. congruence. }
  destruct (save tmp flt1 a X w) as [r w'] eqn:Hs. cbn [snd].
  assert (Hfind : List.find (key_eqb (cache_key_of b)) (remote w')
                  = List.find (key_eqb (cache_key_of b)) (remote w)).
  { rewrite !find_as_filter. f_equal.
    apply (save_keeps _ (fun w0 => List.filter (key_eqb (cache_key_of b)) (remote w0))
             tmp flt1) in Hs; auto.
    - intros w0. cbn. now apply filter_other_key.
    - intros m w0. cbn [remote set_remote List.filter].
      now rewrite key_eqb_other. }
  destruct (mkdir_fault flt2) as [e|] eqn:Hm.
  - now rewrite !(restore_throws_mkdir _ _ _ _ e Hm).
  - rewrite !restore_value by assumption. now rewrite Hfind.
Qed.

Lemma stores_isolated_witness :
  statePrefix bar <> statePrefix foo
  /\ unlink_fault no_faults = None
  /\ fst (restore "/tmp" no_faults foo
            (snd (save "/tmp" no_faults bar "7" stored_world))) = Ok "42".
Proof.
  split; [discriminate|]. split; [reflexivity|].
  rewrite (stores_isolated "/tmp" no_faults no_faults bar foo "7" stored_world);
    [reflexivity | discriminate | reflexivity].
Defined.

(** ** Saving again *)

Lemma filter_twice k r :
  List.filter (fun e => negb (key_eqb k e)) (List.filter (fun e => negb (key_eqb k e)) r)
  = List.filter (fun e => negb (key_eqb k e)) r.
Proof.
  induction r as [|e r IH]; [reflexivity|].
  cbn [List.filter]. destruct (negb (key_eqb k e)) eqn:He; [|exact IH].
  cbn [List.filter]. now rewrite He, IH.
Qed.

(** X12.  In a working environment [save] is idempotent on the disk and
    on the remote cache: saving the same blob a second time leaves both as
    the first [save] left them. *)
Theorem save_idempotent (tmp : string) (this : StateCacheStorage)
    (X : string) (w : world) :
  let w1 := snd (save tmp no_faults this X w) in
  let w2 := snd (save tmp no_faults this X w1) in
  fs w2 = fs w1 /\ remote w2 = remote w1.
Proof.
  set (p := scratch_path tmp this). set (k := cache_key_of this).
  assert (Hstage : forall (data : string) (m : gmap string string),
             <[p := data]> (delete p (<[p := data]> m)) = <[p := data]> m).
  { intros data m. now rewrite insert_delete_eq, insert_insert_eq. }
  destruct (string_dec X "") as [->|HX].
  - destruct (save_clearing tmp this w) as (w1 & Hs1 & Hfs1 & Hrem1 & _).
    rewrite Hs1. cbn [snd].
    destruct (save_clearing tmp this w1) as (w2 & Hs2 & Hfs2 & Hrem2 & _).
    rewrite Hs2. cbn [snd]. fold p k in Hfs1, Hfs2, Hrem1, Hrem2.
    split.
    + rewrite Hfs2, Hfs1. now rewrite Hstage.
    + rewrite Hrem2, Hrem1. apply filter_twice.
  - destruct (save_working tmp this X w HX) as (w1 & Hs1 & Hfs1 & Hrem1 & _).
    rewrite Hs1. cbn [snd].
    destruct (save_working tmp this X w1 HX) as (w2 & Hs2 & Hfs2 & Hrem2 & _).
    rewrite Hs2. cbn [snd]. fold p k in Hfs1, Hfs2, Hrem1, Hrem2.
    split.
    + rewrite Hfs2, Hfs1. now rewrite Hstage.
    + rewrite Hrem2, Hfs1, Hstage, Hrem1.
      cbn [List.filter]. rewrite key_eqb_same. cbn [negb].
      now rewrite filter_twice.
Qed.

(** ** Failures inside [save] *)

(** X13.  The delete comes before the upload and nothing puts the old
    entry back: when only the upload fails, [save] returns normally with a
    warning, no entry is left under the key, and the next [restore]
    returns the empty string. *)
Theorem upload_failure_loses_state (tmp : string) (flt flt' : faults)
    (this : StateCacheStorage) (X : string) (w : world) (e : js_error) :
  mkdir_fault flt = None -> write_fault flt = None ->
  client_fault flt = None -> list_fault flt = None ->
  delete_fault flt = None -> stat_fault flt = None ->
  upload_fault flt = Some e ->
  X <> "" ->
  mkdir_fault flt' = None ->
  exists w' w'',
    save tmp flt this X w = (Ok tt, w')
    /\ count_key (cache_key_of this) (remote w') = 0
    /\ head (log w')
       = Some (Warning,
               "Saving the state was not successful due to " +:+ dq
               +:+ message_or e "unknown reason" +:+ dq)
    /\ restore tmp flt' this w' = (Ok "", w'').
Proof.
  intros Hm Hw Hc Hl Hd Hs Hu HX Hm'.
  set (p := scratch_path tmp this). set (k := cache_key_of this).
  assert (Hlen : (String.length (utf8_encode X) =? 0)%nat = false)
    by (now apply staged_size).
  assert (Hsave : exists w',
             save tmp flt this X w = (Ok tt, w')
             /\ remote w' = List.filter (fun e0 => negb (key_eqb k e0)) (remote w)
             /\ head (log w')
                = Some (Warning,
                        "Saving the state was not successful due to " +:+ dq
                        +:+ message_or e "unknown reason" +:+ dq)).
  { unfold save.
    rewrite (bind_ok _ _ _ _ _ (mkTempDir_ok tmp flt w Hm)).
    change (path_join (scratch_dir tmp) (state_file_of this)) with p. fold k.
    unfold writeFileSync, try_finally, try_catch, bind at 1 2 3, guard, ret.
    rewrite Hw. cbn.
    change (path_join (scratch_dir tmp) (state_file_of this)) with p.
    rewrite checkIfCacheExists_listed by assumption. cbn.
    destruct (existsb (key_eqb k) (remote w)) eqn:He.
    - unfold bind at 1.
      rewrite resetCacheWithOctokit_deletes by (cbn; auto).
      unfold statSync_size, saveCache, bind, guard, ret, throw, core_warning.
      rewrite Hs, Hu. cbn. rewrite lookup_insert_eq, Hlen.
      match goal with
      | |- context [unlinkSafely flt ?q ?w0] =>
          destruct (unlinkSafely_total flt q w0) as (w' & -> & Hrem & Hlog & _)
      end.
      exists w'. split; [reflexivity|]. split; [exact Hrem | now rewrite Hlog].
    - unfold statSync_size, saveCache, bind, guard, ret, throw, core_warning.
      rewrite Hs, Hu. cbn. rewrite lookup_insert_eq, Hlen.
      match goal with
      | |- context [unlinkSafely flt ?q ?w0] =>
          destruct (unlinkSafely_total flt q w0) as (w' & -> & Hrem & Hlog & _)
      end.
      exists w'. split; [reflexivity|].
      split; [rewrite Hrem; cbn; now rewrite filter_absent | now rewrite Hlog]. }
  destruct Hsave as (w' & Hrun & Hrem & Hlog).
  assert (Hcount : count_key k (remote w') = 0)
    by (rewrite Hrem; apply count_after_delete).
  destruct (restore_not_found tmp flt' this w' Hm') as (w'' & Hr).
  { right. right. now apply existsb_count. }
  exists w', w''. auto.
Qed.

Lemma upload_failure_loses_state_witness :
  "43" <> ""
  /\ upload_fault (upload_fails socket_hang_up) = Some socket_hang_up
  /\ exists w' w'',
       save "/tmp" (upload_fails socket_hang_up) foo "43" stored_world = (Ok tt, w')
       /\ count_key (cache_key_of foo) (remote w') = 0
       /\ head (log w')
          = Some (Warning,
                  "Saving the state was not successful due to " +:+ dq
                  +:+ message_or socket_hang_up "unknown reason" +:+ dq)
       /\ restore "/tmp" no_faults foo w' = (Ok "", w'').
Proof.
  split; [discriminate|]. split; [reflexivity|].
  apply (upload_failure_loses_state "/tmp" (upload_fails socket_hang_up) no_faults
           foo "43" stored_world socket_hang_up);
    try reflexivity. discriminate.
Defined.

(** X14.  Without a usable token [save] reaches no backend call: the
    error of the client is caught, logged as a warning, and the cache is
    left as it was. *)
Theorem save_without_client (tmp : string) (flt : faults)
    (this : StateCacheStorage) (X : string) (w : world) (e : js_error) :
  mkdir_fault flt = None -> write_fault flt = None ->
  client_fault flt = Some e ->
  exists w',
    save tmp flt this X w = (Ok tt, w')
    /\ calls w' = calls w
    /\ remote w' = remote w
    /\ log w'
       = (Warning,
          "Saving the state was not successful due to " +:+ dq
          +:+ message_or e "unknown reason" +:+ dq) :: log w.
Proof.
  intros Hm Hw Hc. unfold save.
  rewrite (bind_ok _ _ _ _ _ (mkTempDir_ok tmp flt w Hm)).
  unfold writeFileSync, try_finally, try_catch, bind at 1 2 3, guard, ret.
  rewrite Hw. cbn.
  rewrite (checkIfCacheExists_no_client _ _ _ e) by exact Hc.
  unfold core_warning.
  match goal with
  | |- context [unlinkSafely flt ?q ?w0] =>
      destruct (unlinkSafely_total flt q w0) as (w' & -> & Hrem & Hlog & Hcalls)
  end.
  exists w'. split; [reflexivity|]. auto.
Qed.

Lemma save_without_client_witness :
  client_fault (client_fails missing_token) = Some missing_token
  /\ exists w',
       save "/tmp" (client_fails missing_token) foo "43" stored_world = (Ok tt, w')
       /\ calls w' = []
       /\ remote w' = remote stored_world
       /\ log w'
          = [(Warning,
              "Saving the state was not successful due to " +:+ dq
              +:+ "Parameter token or opts.auth is required" +:+ dq)].
Proof.
  split; [reflexivity|].
  apply (save_without_client "/tmp" (client_fails missing_token) foo "43"
           stored_world missing_token); reflexivity.
Defined.

Lemma save_outcome_witness :
  fst (save "/tmp" (write_fails EACCES) foo "43" stored_world) = Throw EACCES
  /\ snd (save "/tmp" (write_fails EACCES) foo "43" stored_world) = stored_world
  /\ fst (save "/tmp" (upload_fails socket_hang_up) foo "43" stored_world) = Ok tt.
Proof.
  destruct (save_outcome "/tmp" (write_fails EACCES) foo "43" stored_world)
    as [Hthrow Hsame].
  destruct (save_outcome "/tmp" (upload_fails socket_hang_up) foo "43" stored_world)
    as [Hok _].
  split; [exact Hthrow|]. split; [exact (Hsame EACCES Hthrow) | exact Hok].
Defined.

(** ** Across runs *)

(** X15.  The state survives a change of machine that keeps the temp
    directory: after a [save] of a non-empty well-formed blob in a working
    environment, a [restore] with the same temp directory in any world
    that has the same remote cache, whatever its disk holds, returns the
    blob. *)
Theorem roundtrip_across_runs (tmp : string) (this : StateCacheStorage)
    (X : string) (w w2 : world) :
  X <> "" ->
  well_formed X = true ->
  remote w2 = remote (snd (save tmp no_faults this X w)) ->
  fst (restore tmp no_faults this w2) = Ok X.
Proof.
  intros HX Hwf Hrem.
  destruct (save_working tmp this X w HX) as (w1 & Hs & _ & Hrem1 & _).
  rewrite Hs in Hrem. cbn [snd] in Hrem.
  rewrite restore_value by reflexivity.
  rewrite Hrem, Hrem1, find_head.
  cbn [client_fault list_fault download_fault read_fault no_faults entry_files].
  rewrite (archive_holds_scratch tmp this X w).
  apply well_formed_roundtrip in Hwf as [He Hd]. now rewrite He, Hd.
Qed.

Lemma roundtrip_across_runs_witness :
  "43" <> ""
  /\ well_formed "43" = true
  /\ remote (World (fs stale_world)
               (remote (snd (save "/tmp" no_faults foo "43" fresh_world))) [] [])
     = remote (snd (save "/tmp" no_faults foo "43" fresh_world))
  /\ fst (restore "/tmp" no_faults foo
            (World (fs stale_world)
                   (remote (snd (save "/tmp" no_faults foo "43" fresh_world))) [] []))
     = Ok "43".
Proof.
  split; [discriminate|]. split; [reflexivity|]. split; [reflexivity|].
  apply (roundtrip_across_runs "/tmp" foo "43" fresh_world);
    [discriminate | reflexivity | reflexivity].
Defined.
